(** * pubsub/firebase: the FCM topic driver (firebase.go)

    A shallow embedding of [fcmTopic] and its methods.  Go's effects are
    written out: a call of [SendBatch] is a function of the outside world
    (the caller's closures, the FCM backend, the metrics sink, the logger,
    the wall clock) that yields an outcome, the world afterwards and the
    ordered trace of the calls it made to its collaborators. *)

From Stdlib Require Import ZArith String List Lia Bool Sorted.
From Stdlib Require Import Strings.Byte.
From stdpp Require Import base option list.
Import ListNotations.
Local Open Scope string_scope.
Local Open Scope Z_scope.
Local Open Scope list_scope.

(** ** Go values *)

(** A non-nil [error] value, identified by its message. *)
Definition err := string.

(** Go's [error] interface: [None] is [nil]. *)
Abbreviation error := (option err).

(** The two run-time panics this file can raise. *)
Inductive panic :=
| NilDereference
| IndexOutOfRange.

(** ** gocloud.dev/gcerrors *)
Module gcerrors.
Inductive ErrorCode :=
| OK
| Unknown
| NotFound
| AlreadyExists
| InvalidArgument
| Internal
| Unimplemented
| FailedPrecondition
| PermissionDenied
| ResourceExhausted
| Canceled
| DeadlineExceeded.
End gcerrors.

(** ** firebase.google.com/go/v4/messaging *)
Module messaging.
(** [SendResponse]: the outcome of one message of a batch. *)
Record SendResponse := {
  Success : bool;
  MessageID : string;
  Error : error
}.

(** [BatchResponse]: the counts and the per-message outcomes.  The
    entries are distinct non-nil pointers in Go; they are held here by
    value, and a hook that writes through its accessor updates its own
    entry of the list. *)
Record BatchResponse := {
  SuccessCount : Z;
  FailureCount : Z;
  Responses : list SendResponse
}.

(** [Client]: the two batch entry points.  Each returns Go's pair of a
    nullable batch response and an error, and may change the world. *)
Record Client (W Message : Type) := {
  SendAll : list Message -> W -> (option BatchResponse * error) * W;
  SendAllDryRun : list Message -> W -> (option BatchResponse * error) * W
}.
Arguments SendAll {W Message} _ _ _.
Arguments SendAllDryRun {W Message} _ _ _.
End messaging.

(** ** go.uber.org/zap *)
Module zap.
(** The structured fields this driver builds: [zap.String], [zap.Error]
    and [zap.Any] on a message or on a response entry. *)
Inductive Field (Message : Type) :=
| String (key val : string)
| Error (e : error)
| AnyMessage (key : string) (m : Message)
| AnyResponse (key : string) (r : messaging.SendResponse).
Arguments String {Message} _ _.
Arguments Error {Message} _.
Arguments AnyMessage {Message} _ _.
Arguments AnyResponse {Message} _ _.

(** A non-nil [*zap.Logger]; only its [Error] method is used. *)
Record Logger (W Message : Type) := {
  Logger_Error : string -> list (Field Message) -> W -> W
}.
Arguments Logger_Error {W Message} _ _ _ _.
End zap.

(** ** gocloud.dev/pubsub/batcher and gocloud.dev/pubsub/driver *)
Module batcher.
Record Options := {
  MaxHandlers : Z;
  MinBatchSize : Z;
  MaxBatchSize : Z;
  MaxBatchByteSize : Z
}.
End batcher.

Module driver.
(** [driver.Message], restricted to the fields the driver reads.  A hook
    is handed an accessor to the live object (the decoded message before
    the send, the response entry after it): it may rewrite that object,
    may change the world, and returns an [error]. *)
Record Message (W M : Type) := {
  Body : list byte;
  BeforeSend : option (M -> W -> (M * error) * W);
  AfterSend :
    option (messaging.SendResponse -> W -> (messaging.SendResponse * error) * W)
}.
Arguments Body {W M} _.
Arguments BeforeSend {W M} _.
Arguments AfterSend {W M} _.
End driver.

(** ** package firebase *)

(** [countMetricInterface]: a non-nil metrics sink. *)
Record countMetricInterface (W : Type) := {
  Timing : string -> Z -> list string -> W -> W;
  Count : string -> Z -> list string -> W -> W
}.
Arguments Timing {W} _ _ _ _ _.
Arguments Count {W} _ _ _ _ _.

Definition sendBatchOpts : batcher.Options :=
  {| batcher.MaxHandlers := 50;
     batcher.MinBatchSize := 0;
     batcher.MaxBatchSize := 500;
     batcher.MaxBatchByteSize := 0 |}.

Record TopicOptions (W Message : Type) := {
  DryRun : bool;
  BacherOptions : option batcher.Options;
  MetricService : option (countMetricInterface W);
  Tags : list string;
  Logger : option (zap.Logger W Message)
}.
Arguments DryRun {W Message} _.
Arguments BacherOptions {W Message} _.
Arguments MetricService {W Message} _.
Arguments Tags {W Message} _.
Arguments Logger {W Message} _.

Record fcmTopic (W Message : Type) := {
  client : messaging.Client W Message;
  opts : TopicOptions W Message
}.
Arguments client {W Message} _.
Arguments opts {W Message} _.

(** The calls a [SendBatch] makes to its collaborators, with what each
    call was given and what it answered. *)
Inductive event (Message : Type) :=
| EvBeforeSend (n : nat) (entry : Message) (ret : error)
| EvSendAll (entries : list Message)
    (ret : option messaging.BatchResponse * error)
| EvSendAllDryRun (entries : list Message)
    (ret : option messaging.BatchResponse * error)
| EvLogError (msg : string) (fields : list (zap.Field Message))
| EvCount (stat : string) (count : Z) (tags : list string)
| EvTiming (stat : string) (duration : Z) (tags : list string)
| EvAfterSend (n : nat) (r : messaging.SendResponse) (ret : error).
Arguments EvBeforeSend {Message} _ _ _.
Arguments EvSendAll {Message} _ _.
Arguments EvSendAllDryRun {Message} _ _.
Arguments EvLogError {Message} _ _.
Arguments EvCount {Message} _ _ _.
Arguments EvTiming {Message} _ _ _.
Arguments EvAfterSend {Message} _ _ _.

(** The sorts of calls. *)
Inductive sort :=
| Before
| Backend
| Log
| CountMetric
| TimingMetric
| After.

Definition sort_eqb (a b : sort) : bool :=
  match a, b with
  | Before, Before | Backend, Backend | Log, Log
  | CountMetric, CountMetric | TimingMetric, TimingMetric | After, After => true
  | _, _ => false
  end.

(** How a piece of a function body ends: it falls through with a value,
    it executes [return e], or it panics. *)
Inductive outcome (A : Type) :=
| Normal (a : A)
| Returned (e : error)
| Panicked (p : panic).
Arguments Normal {A} _.
Arguments Returned {A} _.
Arguments Panicked {A} _.

Section Firebase.
(** The outside world and the backend's message type. *)
Variable W : Type.
Variable Message : Type.

(** [time.Now()] as a reading of the world's clock, in nanoseconds. *)
Variable clock : W -> Z.

(** [&messaging.Message{}], and [UnmarshalJSON] on a message: the
    receiver after the call and the error. *)
Variable zero_Message : Message.
Variable UnmarshalJSON : Message -> list byte -> Message * error.

Definition run (A : Type) : Type :=
  W -> outcome A * W * list (event Message).

Definition ret {A} (a : A) : run A := fun w => (Normal a, w, []).

Definition bind {A B} (m : run A) (k : A -> run B) : run B :=
  fun w =>
    match m w with
    | (Normal a, w1, t1) =>
        match k a w1 with
        | (o, w2, t2) => (o, w2, t1 ++ t2)
        end
    | (Returned e, w1, t1) => (Returned e, w1, t1)
    | (Panicked p, w1, t1) => (Panicked p, w1, t1)
    end.

(** [return e] *)
Definition return_ {A} (e : error) : run A := fun w => (Returned e, w, []).

Definition raise {A} (p : panic) : run A := fun w => (Panicked p, w, []).

(** A call to a collaborator: the world moves and the call is traced. *)
Definition call {A} (f : W -> A * W) (ev : A -> event Message) : run A :=
  fun w => match f w with (a, w1) => (Normal a, w1, [ev a]) end.

(** [defer d] around [body]: [d] runs when [body] is left, however it is
    left; a panic of [d] replaces the outcome. *)
Definition defer {A} (d : run unit) (body : run A) : run A :=
  fun w =>
    match body w with
    | (o, w1, t1) =>
        match d w1 with
        | (Panicked p, w2, t2) => (Panicked p, w2, t1 ++ t2)
        | (_, w2, t2) => (o, w2, t1 ++ t2)
        end
    end.

(** The boundary of a function: [return e] becomes its result. *)
Definition func (body : run error) : run error :=
  fun w =>
    match body w with
    | (Returned e, w1, t1) => (Normal e, w1, t1)
    | r => r
    end.

Notation "x <- m ;; k" := (bind m (fun x => k))
  (at level 100, m at next level, right associativity).

(** [time.Now()] and [time.Since(now)] *)
Definition time_Now : run Z := fun w => (Normal (clock w), w, []).
Definition time_Since (now : Z) : run Z :=
  fun w => (Normal (clock w - now), w, []).

(** [s[n]] on a slice: a panic out of range. *)
Definition index {A} (s : list A) (n : nat) : run A :=
  match s !! n with
  | Some a => ret a
  | None => raise IndexOutOfRange
  end.

(** Reading through a pointer that may be nil. *)
Definition deref {A} (p : option A) : run A :=
  match p with
  | Some a => ret a
  | None => raise NilDereference
  end.

Definition openFCMTopic (client : messaging.Client W Message)
    (opts : option (TopicOptions W Message)) : fcmTopic W Message :=
  let opts :=
    match opts with
    | None =>
        {| DryRun := false; BacherOptions := None; MetricService := None;
           Tags := []; Logger := None |}
    | Some o => o
    end in
  {| client := client; opts := opts |}.

(** [t.opts.MetricService.Timing(...)], [t.opts.MetricService.Count(...)]
    and [t.opts.Logger.Error(...)]: a method call on what may be nil. *)
Definition MetricService_Timing (t : fcmTopic W Message) (stat : string)
    (duration : Z) (tags : list string) : run unit :=
  match MetricService (opts t) with
  | None => raise NilDereference
  | Some ms =>
      call (fun w => (tt, Timing ms stat duration tags w))
           (fun _ => EvTiming stat duration tags)
  end.

Definition MetricService_Count (t : fcmTopic W Message) (stat : string)
    (count : Z) (tags : list string) : run unit :=
  match MetricService (opts t) with
  | None => raise NilDereference
  | Some ms =>
      call (fun w => (tt, Count ms stat count tags w))
           (fun _ => EvCount stat count tags)
  end.

Definition Logger_Error (t : fcmTopic W Message) (msg : string)
    (fields : list (zap.Field Message)) : run unit :=
  match Logger (opts t) with
  | None => raise NilDereference
  | Some l =>
      call (fun w => (tt, zap.Logger_Error l msg fields w))
           (fun _ => EvLogError msg fields)
  end.

(** Lines 64-82: the loop over [dms], at request [n], with the slice
    [entries] built so far. *)
Fixpoint decode_loop (n : nat) (dms : list (driver.Message W Message))
    (entries : list Message) : run (list Message) :=
  match dms with
  | [] => ret entries
  | dm :: rest =>
      entry <- (match UnmarshalJSON zero_Message (driver.Body dm) with
                | (_, Some e) => return_ (Some e)
                | (m, None) => ret m
                end) ;;
      entry <- (match driver.BeforeSend dm with
                | Some hook =>
                    r <- call (hook entry)
                           (fun r => EvBeforeSend n entry (snd r)) ;;
                    match snd r with
                    | Some e => return_ (Some e)
                    | None => ret (fst r)
                    end
                | None => ret entry
                end) ;;
      decode_loop (S n) rest (entries ++ [entry])
  end.

(** Lines 85-89: the dry-run or the live entry point. *)
Definition send (t : fcmTopic W Message) (entries : list Message)
    : run (option messaging.BatchResponse * error) :=
  if DryRun (opts t)
  then call (messaging.SendAllDryRun (client t) entries)
            (EvSendAllDryRun entries)
  else call (messaging.SendAll (client t) entries) (EvSendAll entries).

(** The after-send hook of request [n] on its response entry; what the
    hook wrote through the accessor stays in the entry. *)
Definition call_AfterSend (n : nat)
    (hook : messaging.SendResponse -> W -> (messaging.SendResponse * error) * W)
    (responses : list messaging.SendResponse)
    : run (list messaging.SendResponse) :=
  respEntity <- index responses n ;;
  r <- call (hook respEntity) (fun r => EvAfterSend n respEntity (snd r)) ;;
  match snd r with
  | Some e => return_ (Some e)
  | None => ret (<[n := fst r]> responses)
  end.

(** Lines 114-121: the log of an entry that carries an error. *)
Definition log_entry (t : fcmTopic W Message) (entries : list Message)
    (n : nat) (respEntity : messaging.SendResponse) : run unit :=
  match messaging.Error respEntity with
  | Some e =>
      entry <- index entries n ;;
      Logger_Error t "Error from response entity"
        [zap.String "from" "pubsub.firebase.sendBatch.resposneEntity";
         zap.Error (Some e);
         zap.AnyMessage "requestEntity" entry;
         zap.AnyResponse "responseEntity" respEntity]
  | None => ret tt
  end.

(** Lines 101-121: one turn of the loop over the response entries.
    [respEntity] is a pointer: the log reads the entry as the hook
    left it. *)
Definition reconcile_entry (t : fcmTopic W Message) (entries : list Message)
    (n : nat) (dm : driver.Message W Message)
    (responses : list messaging.SendResponse)
    : run (list messaging.SendResponse) :=
  respEntity <- index responses n ;;
  responses <- (match messaging.Success respEntity, driver.AfterSend dm with
                | true, Some hook => call_AfterSend n hook responses
                | _, _ => ret responses
                end) ;;
  respEntity <- index responses n ;;
  _ <- log_entry t entries n respEntity ;;
  ret responses.

(** Lines 100-122: the loop over the response entries. *)
Fixpoint reconcile_loop (t : fcmTopic W Message) (entries : list Message)
    (n : nat) (dms : list (driver.Message W Message))
    (responses : list messaging.SendResponse)
    : run (list messaging.SendResponse) :=
  match dms with
  | [] => ret responses
  | dm :: rest =>
      responses <- reconcile_entry t entries n dm responses ;;
      reconcile_loop t entries (S n) rest responses
  end.

(** Lines 125-138: the loop of the full-success branch. *)
Fixpoint success_loop (n : nat) (dms : list (driver.Message W Message))
    (responses : list messaging.SendResponse)
    : run (list messaging.SendResponse) :=
  match dms with
  | [] => ret responses
  | dm :: rest =>
      responses <- (match driver.AfterSend dm with
                    | Some hook => call_AfterSend n hook responses
                    | None => ret responses
                    end) ;;
      success_loop (S n) rest responses
  end.

(** Lines 96-98: the failure counter. *)
Definition count_failures (t : fcmTopic W Message)
    (resp : messaging.BatchResponse) : run unit :=
  if 0 <? messaging.FailureCount resp
  then MetricService_Count t "firebase.message.sendBatch.failure"
         (messaging.FailureCount resp) (Tags (opts t))
  else ret tt.

(** Lines 124-139: the branch taken when the success count equals the
    number of requests. *)
Definition all_succeeded (dms : list (driver.Message W Message))
    (resp : messaging.BatchResponse)
    (responses : list messaging.SendResponse)
    : run (list messaging.SendResponse) :=
  if messaging.SuccessCount resp =? Z.of_nat (length dms)
  then success_loop 0 dms responses
  else ret responses.

(** Lines 96-140: what follows a backend call that returned no error. *)
Definition reconcile (t : fcmTopic W Message)
    (dms : list (driver.Message W Message)) (entries : list Message)
    (resp : messaging.BatchResponse) : run error :=
  _ <- count_failures t resp ;;
  responses <- reconcile_loop t entries 0 dms (messaging.Responses resp) ;;
  _ <- all_succeeded dms resp responses ;;
  return_ None.

(** Lines 91-140: what follows the backend call that answered [r]. *)
Definition respond (t : fcmTopic W Message)
    (dms : list (driver.Message W Message)) (entries : list Message)
    (r : option messaging.BatchResponse * error) : run error :=
  match snd r with
  | Some e =>
      _ <- Logger_Error t "Error from response entity"
             [zap.String "from" "pubsub.firebase.sendBatch.response";
              zap.Error (Some e)] ;;
      return_ (Some e)
  | None =>
      resp <- deref (fst r) ;;
      reconcile t dms entries resp
  end.

(** Lines 83-140: what follows the first loop. *)
Definition submit (t : fcmTopic W Message)
    (dms : list (driver.Message W Message)) (entries : list Message)
    : run error :=
  r <- send t entries ;;
  respond t dms entries r.

(** Lines 63-140: the body of [SendBatch], without its deferred call. *)
Definition SendBatch_body (t : fcmTopic W Message)
    (dms : list (driver.Message W Message)) : run error :=
  entries <- decode_loop 0 dms [] ;;
  submit t dms entries.

Definition SendBatch (t : fcmTopic W Message)
    (dms : list (driver.Message W Message)) : run error :=
  func (now <- time_Now ;;
        defer (since <- time_Since now ;;
               MetricService_Timing t "firebase.messagine.sendBatch.latency"
                 since (Tags (opts t)))
              (SendBatch_body t dms)).

Definition IsRetryable (t : fcmTopic W Message) (e : error) : bool := false.

Definition ErrorCode (t : fcmTopic W Message) (e : error)
    : gcerrors.ErrorCode :=
  match e with
  | Some _ => gcerrors.OK
  | None => gcerrors.Unknown
  end.

Definition Close (t : fcmTopic W Message) : error := None.

(** *** Reading a run and its trace *)

Definition outcome_of {A} (r : outcome A * W * list (event Message))
    : outcome A := fst (fst r).
Definition world_of {A} (r : outcome A * W * list (event Message)) : W :=
  snd (fst r).
Definition trace_of {A} (r : outcome A * W * list (event Message))
    : list (event Message) := snd r.

Definition sort_of (ev : event Message) : sort :=
  match ev with
  | EvBeforeSend _ _ _ => Before
  | EvSendAll _ _ | EvSendAllDryRun _ _ => Backend
  | EvLogError _ _ => Log
  | EvCount _ _ _ => CountMetric
  | EvTiming _ _ _ => TimingMetric
  | EvAfterSend _ _ _ => After
  end.

(** The events of one sort, in the order they happened. *)
Definition only (s : sort) (tr : list (event Message))
    : list (event Message) :=
  List.filter (fun ev => sort_eqb (sort_of ev) s) tr.

(** The requests whose before-send (after-send) hook was invoked, one
    index per invocation, in the order of the invocations. *)
Definition before_sends (tr : list (event Message)) : list nat :=
  omap (fun ev => match ev with EvBeforeSend n _ _ => Some n | _ => None end) tr.
Definition after_sends (tr : list (event Message)) : list nat :=
  omap (fun ev => match ev with EvAfterSend n _ _ => Some n | _ => None end) tr.

(** The non-nil errors that hooks returned. *)
Definition before_errors (tr : list (event Message)) : list err :=
  omap (fun ev => match ev with EvBeforeSend _ _ e => e | _ => None end) tr.
Definition after_errors (tr : list (event Message)) : list err :=
  omap (fun ev => match ev with EvAfterSend _ _ e => e | _ => None end) tr.

(** What the backend answered, one pair per call. *)
Definition backend_rets (tr : list (event Message))
    : list (option messaging.BatchResponse * error) :=
  omap (fun ev => match ev with
                  | EvSendAll _ r | EvSendAllDryRun _ r => Some r
                  | _ => None
                  end) tr.

(** How often request [n]'s hook was invoked. *)
Definition invocations (n : nat) (ns : list nat) : nat :=
  count_occ Nat.eq_dec ns n.

(** The positions, counted from [n], of the elements that satisfy [p]. *)
Fixpoint positions {A} (p : A -> bool) (n : nat) (l : list A) : list nat :=
  match l with
  | [] => []
  | a :: rest => (if p a then [n] else []) ++ positions p (S n) rest
  end.

Definition has_BeforeSend (dm : driver.Message W Message) : bool :=
  match driver.BeforeSend dm with Some _ => true | None => false end.
Definition has_AfterSend (dm : driver.Message W Message) : bool :=
  match driver.AfterSend dm with Some _ => true | None => false end.

(** The payload of a request decodes. *)
Definition decodes (dm : driver.Message W Message) : bool :=
  match snd (UnmarshalJSON zero_Message (driver.Body dm)) with
  | None => true
  | Some _ => false
  end.

(** The requests from position [n] on whose response entry signals
    success and which carry an after-send hook. *)
Fixpoint successful_hooked (n : nat) (dms : list (driver.Message W Message))
    (responses : list messaging.SendResponse) : list nat :=
  match dms with
  | [] => []
  | dm :: rest =>
      (match responses !! n with
       | Some r => if messaging.Success r && has_AfterSend dm then [n] else []
       | None => []
       end) ++ successful_hooked (S n) rest responses
  end.

(** The same backend with its two entry points exchanged, the same
    topic with another dry-run flag and backend, and the same call seen
    on the other entry point. *)
Definition swap_client (c : messaging.Client W Message)
    : messaging.Client W Message :=
  {| messaging.SendAll := messaging.SendAllDryRun c;
     messaging.SendAllDryRun := messaging.SendAll c |}.

Definition with_mode (dry : bool) (c : messaging.Client W Message)
    (t : fcmTopic W Message) : fcmTopic W Message :=
  {| client := c;
     opts := {| DryRun := dry;
                BacherOptions := BacherOptions (opts t);
                MetricService := MetricService (opts t);
                Tags := Tags (opts t);
                Logger := Logger (opts t) |} |}.

Definition swap_event (ev : event Message) : event Message :=
  match ev with
  | EvSendAll entries r => EvSendAllDryRun entries r
  | EvSendAllDryRun entries r => EvSendAll entries r
  | _ => ev
  end.

Definition is_live (ev : event Message) : bool :=
  match ev with EvSendAll _ _ => true | _ => false end.
Definition is_dry (ev : event Message) : bool :=
  match ev with EvSendAllDryRun _ _ => true | _ => false end.

(** Every event a computation traces has one of the sorts [ss]. *)
Definition emits {A} (ss : list sort) (m : run A) : Prop :=
  forall w, Forall (fun ev => In (sort_of ev) ss) (trace_of (m w)).

(** What [func] makes of the outcome of a body. *)
Definition finish (o : outcome error) : outcome error :=
  match o with
  | Returned e => Normal e
  | o => o
  end.

Definition is_panic {A} (o : outcome A) : bool :=
  match o with Panicked _ => true | _ => false end.

(** A batch response as the backend builds it: one entry per message
    and counts that agree with the entries. *)
Definition well_formed (resp : messaging.BatchResponse) (n : nat) : Prop :=
  length (messaging.Responses resp) = n /\
  messaging.SuccessCount resp =
    Z.of_nat (length (List.filter messaging.Success (messaging.Responses resp))) /\
  messaging.FailureCount resp =
    Z.of_nat n - messaging.SuccessCount resp.

(** *** Type assertions on [interface{}] *)

(** What a caller can put behind the [interface{}] this file asserts on:
    a pointer to a variable of type [*messaging.Client],
    [*messaging.Message] or [*messaging.SendResponse], or a value of any
    other dynamic type.  The outer option is the pointer (nil or not),
    the inner one the content of the variable it points to. *)
Inductive any :=
| ClientTarget (p : option (option (messaging.Client W Message)))
| MessageTarget (p : option (option Message))
| ResponseTarget (p : option (option messaging.SendResponse))
| OtherValue (type_name : string).

(** Lines 148-155: [As].  The result is the returned bool, or the panic
    of the assignment through a nil pointer, and the target afterwards. *)
Definition As (t : fcmTopic W Message) (i : any) : (panic + bool) * any :=
  match i with
  | ClientTarget None => (inl NilDereference, i)
  | ClientTarget (Some _) => (inr true, ClientTarget (Some (Some (client t))))
  | _ => (inr false, i)
  end.

(** Lines 70-76: the accessor handed to a before-send hook. *)
Definition asFunc_BeforeSend (entry : Message) (i : any)
    : (panic + bool) * any :=
  match i with
  | MessageTarget None => (inl NilDereference, i)
  | MessageTarget (Some _) => (inr true, MessageTarget (Some (Some entry)))
  | _ => (inr false, i)
  end.

(** Lines 103-109 and 127-133: the accessor handed to an after-send
    hook.  The entry is indexed before the assignment is carried out. *)
Definition asFunc_AfterSend (responses : list messaging.SendResponse)
    (n : nat) (i : any) : (panic + bool) * any :=
  match i with
  | ResponseTarget p =>
      match responses !! n with
      | None => (inl IndexOutOfRange, i)
      | Some r =>
          match p with
          | None => (inl NilDereference, i)
          | Some _ => (inr true, ResponseTarget (Some (Some r)))
          end
      end
  | _ => (inr false, i)
  end.

(** *** More readings of a trace *)

(** The batches handed to the backend, one per call. *)
Definition backend_entries (tr : list (event Message)) : list (list Message) :=
  omap (fun ev => match ev with
                  | EvSendAll es _ | EvSendAllDryRun es _ => Some es
                  | _ => None
                  end) tr.

(** The log of entry [n], as lines 114-121 write it. *)
Definition entry_log (m : Message) (re : messaging.SendResponse) (e : err)
    : event Message :=
  EvLogError "Error from response entity"
    [zap.String "from" "pubsub.firebase.sendBatch.resposneEntity";
     zap.Error (Some e);
     zap.AnyMessage "requestEntity" m;
     zap.AnyResponse "responseEntity" re].

(** The logs of the entries from position [n] on that carry an error,
    each with the message submitted at its position. *)
Fixpoint error_logs (entries : list Message) (n : nat)
    (dms : list (driver.Message W Message))
    (responses : list messaging.SendResponse) : list (event Message) :=
  match dms with
  | [] => []
  | _ :: rest =>
      (match responses !! n, entries !! n with
       | Some re, Some m =>
           match messaging.Error re with
           | Some e => [entry_log m re e]
           | None => []
           end
       | _, _ => []
       end) ++ error_logs entries (S n) rest responses
  end.

(** A computation that an after-send hook error ends: the error is the
    only one of the computation and is what it returns. *)
Definition stops_on_error {A} (m : run A) : Prop :=
  forall w e,
    In e (after_errors (trace_of (m w))) ->
    after_errors (trace_of (m w)) = [e] /\
    outcome_of (m w) = Returned (Some e).

(** A metric as this topic emits it: the failure counter with a positive
    count, or the latency timing, with the configured tags. *)
Definition metric_ok (t : fcmTopic W Message) (ev : event Message) : Prop :=
  match ev with
  | EvCount stat count tags =>
      stat = "firebase.message.sendBatch.failure" /\ 0 < count /\
      tags = Tags (opts t)
  | EvTiming stat _ tags =>
      stat = "firebase.messagine.sendBatch.latency" /\ tags = Tags (opts t)
  | _ => True
  end.

End Firebase.

Arguments outcome_of {W Message A} r.
Arguments world_of {W Message A} r.
Arguments trace_of {W Message A} r.
Arguments sort_of {Message} ev.
Arguments only {Message} s tr.
Arguments swap_event {Message} ev.
Arguments is_live {Message} ev.
Arguments is_dry {Message} ev.
Arguments before_sends {Message} tr.
Arguments after_sends {Message} tr.
Arguments before_errors {Message} tr.
Arguments after_errors {Message} tr.
Arguments backend_rets {Message} tr.
Arguments positions {A} p n l.
Arguments has_BeforeSend {W Message} dm.
Arguments has_AfterSend {W Message} dm.
Arguments successful_hooked {W Message} n dms responses.
Arguments run W Message A : clear implicits.
Arguments ret {W Message A} a w.
Arguments bind {W Message A B} m k w.
Arguments return_ {W Message A} e w.
Arguments raise {W Message A} p w.
Arguments call {W Message A} f ev w.
Arguments defer {W Message A} d body w.
Arguments func {W Message} body w.
Arguments time_Now {W Message} clock w.
Arguments time_Since {W Message} clock now w.
Arguments index {W Message A} s n w.
Arguments deref {W Message A} p w.
Arguments openFCMTopic {W Message} client opts.
Arguments MetricService_Timing {W Message} t stat duration tags w.
Arguments MetricService_Count {W Message} t stat count tags w.
Arguments Logger_Error {W Message} t msg fields w.
Arguments decode_loop {W Message} zero_Message UnmarshalJSON n dms entries w.
Arguments send {W Message} t entries w.
Arguments call_AfterSend {W Message} n hook responses w.
Arguments log_entry {W Message} t entries n respEntity w.
Arguments reconcile_entry {W Message} t entries n dm responses w.
Arguments reconcile_loop {W Message} t entries n dms responses w.
Arguments success_loop {W Message} n dms responses w.
Arguments count_failures {W Message} t resp w.
Arguments all_succeeded {W Message} dms resp responses w.
Arguments reconcile {W Message} t dms entries resp w.
Arguments respond {W Message} t dms entries r w.
Arguments submit {W Message} t dms entries w.
Arguments SendBatch_body {W Message} zero_Message UnmarshalJSON t dms w.
Arguments SendBatch {W Message} clock zero_Message UnmarshalJSON t dms w.
Arguments IsRetryable {W Message} t e.
Arguments ErrorCode {W Message} t e.
Arguments Close {W Message} t.
Arguments decodes {W Message} zero_Message UnmarshalJSON dm.
Arguments emits {W Message A} ss m.
Arguments is_panic {A} o.
Arguments swap_client {W Message} c.
Arguments with_mode {W Message} dry c t.
Arguments ClientTarget {W Message} p.
Arguments MessageTarget {W Message} p.
Arguments ResponseTarget {W Message} p.
Arguments OtherValue {W Message} type_name.
Arguments As {W Message} t i.
Arguments asFunc_BeforeSend {W Message} entry i.
Arguments asFunc_AfterSend {W Message} responses n i.
Arguments backend_entries {Message} tr.
Arguments entry_log {Message} m re e.
Arguments error_logs {W Message} entries n dms responses.
Arguments metric_ok {W Message} t ev.
Arguments stops_on_error {W Message A} m.

(** ** A small concrete world, to run the driver on *)
Module Sample.
(** The world counts the calls made to collaborators; the clock
    advances by one millisecond per call. *)
Definition W := nat.
Definition Message := list byte.
Definition clock (w : W) : Z := Z.of_nat w * 1000000.
Definition zero_Message : Message := [].

(** An empty payload is not JSON; any other payload is kept as it is. *)
Definition UnmarshalJSON (m : Message) (body : list byte) : Message * error :=
  match body with
  | [] => (m, Some "unexpected end of JSON input")
  | _ => (body, None)
  end.

Definition sink : countMetricInterface W :=
  {| Timing := fun _ _ _ w => S w; Count := fun _ _ _ w => S w |}.
Definition logger : zap.Logger W Message :=
  {| zap.Logger_Error := fun _ _ w => S w |}.

Definition ok (id : string) : messaging.SendResponse :=
  {| messaging.Success := true; messaging.MessageID := id;
     messaging.Error := None |}.
Definition failed (e : err) : messaging.SendResponse :=
  {| messaging.Success := false; messaging.MessageID := "";
     messaging.Error := Some e |}.

(** A backend that answers every batch with [ret]. *)
Definition backend (ret : option messaging.BatchResponse * error)
    : messaging.Client W Message :=
  {| messaging.SendAll := fun _ w => (ret, S w);
     messaging.SendAllDryRun := fun _ w => (ret, S w) |}.

Definition topic (dry : bool) (ret : option messaging.BatchResponse * error)
    : fcmTopic W Message :=
  {| client := backend ret;
     opts := {| DryRun := dry; BacherOptions := None;
                MetricService := Some sink; Tags := ["env:test"];
                Logger := Some logger |} |}.

(** Hooks that leave their object alone and return nil. *)
Definition before_ok : Message -> W -> (Message * error) * W :=
  fun m w => ((m, None), S w).
Definition after_ok
    : messaging.SendResponse -> W -> (messaging.SendResponse * error) * W :=
  fun r w => ((r, None), S w).
Definition before_fails (e : err) : Message -> W -> (Message * error) * W :=
  fun m w => ((m, Some e), S w).

Definition request (body : list byte)
    (before : option (Message -> W -> (Message * error) * W))
    (after : option (messaging.SendResponse -> W ->
                     (messaging.SendResponse * error) * W))
    : driver.Message W Message :=
  {| driver.Body := body; driver.BeforeSend := before;
     driver.AfterSend := after |}.

Definition body1 : list byte := [x7b; x7d].

Definition SendBatch := SendBatch clock zero_Message UnmarshalJSON.

(** One request with an after-send hook; the backend reports success. *)
Definition all_ok_1 : messaging.BatchResponse :=
  {| messaging.SuccessCount := 1; messaging.FailureCount := 0;
     messaging.Responses := [ok "m0"] |}.

(** Three requests; the backend reports success, error, success. *)
Definition mixed_3 : messaging.BatchResponse :=
  {| messaging.SuccessCount := 2; messaging.FailureCount := 1;
     messaging.Responses := [ok "m0"; failed "unregistered"; ok "m2"] |}.

Definition hooked_3 : list (driver.Message W Message) :=
  [request body1 (Some before_ok) (Some after_ok);
   request body1 None (Some after_ok);
   request body1 (Some before_ok) (Some after_ok)].

Definition hooked_1 : list (driver.Message W Message) :=
  [request body1 None (Some after_ok)].

(** A request with a before-send hook, then one whose payload is empty. *)
Definition late_bad : list (driver.Message W Message) :=
  [request body1 (Some before_ok) (Some after_ok); request [] None None].

Definition live_ok_1 : fcmTopic W Message := topic false (Some all_ok_1, None).
Definition dry_mixed_3 : fcmTopic W Message := topic true (Some mixed_3, None).
Definition live_down : fcmTopic W Message := topic false (None, Some "unavailable").

(** The topic [openFCMTopic] builds from nil options. *)
Definition bare : fcmTopic W Message :=
  openFCMTopic (backend (Some mixed_3, None)) None.

(** A backend whose live entry point is down and whose dry-run entry
    point answers [mixed_3], and the topic over it in either mode. *)
Definition two_faced : messaging.Client W Message :=
  {| messaging.SendAll := fun _ w => ((None, Some "live is down"), S w);
     messaging.SendAllDryRun := fun _ w => ((Some mixed_3, None), S w) |}.

Definition over_two_faced (dry : bool) : fcmTopic W Message :=
  with_mode dry two_faced live_ok_1.

(** A topic with a sink and no logger. *)
Definition mute (ret : option messaging.BatchResponse * error)
    : fcmTopic W Message :=
  {| client := backend ret;
     opts := {| DryRun := false; BacherOptions := None;
                MetricService := Some sink; Tags := [];
                Logger := None |} |}.
(** A before-send hook that appends a byte to the message. *)
Definition before_tag : Message -> W -> (Message * error) * W :=
  fun m w => ((m ++ [x21], None), S w).
Definition after_fails (e : err)
    : messaging.SendResponse -> W -> (messaging.SendResponse * error) * W :=
  fun r w => ((r, Some e), S w).

Definition tagged_2 : list (driver.Message W Message) :=
  [request body1 (Some before_tag) None; request body1 None None].

Definition vetoed_2 : list (driver.Message W Message) :=
  [request body1 (Some (before_fails "veto")) (Some after_ok);
   request body1 (Some before_ok) (Some after_ok)].

Definition after_failing_3 : list (driver.Message W Message) :=
  [request body1 None (Some after_ok);
   request body1 None (Some (after_fails "hook"));
   request body1 None (Some after_ok)].

Definition plain_3 : list (driver.Message W Message) :=
  [request body1 None None; request body1 None None; request body1 None None].

Definition all_ok_3 : messaging.BatchResponse :=
  {| messaging.SuccessCount := 3; messaging.FailureCount := 0;
     messaging.Responses := [ok "m0"; ok "m1"; ok "m2"] |}.

Definition live_ok_3 : fcmTopic W Message := topic false (Some all_ok_3, None).
Definition live_mixed_3 : fcmTopic W Message := topic false (Some mixed_3, None).
End Sample.


(** * Properties of the driver *)

Section Properties.
Context {W Message : Type}.
Variable clock : W -> Z.
Variable zero_Message : Message.
Variable UnmarshalJSON : Message -> list byte -> Message * error.

Local Abbreviation decode_loop := (decode_loop zero_Message UnmarshalJSON).
Local Abbreviation SendBatch_body := (SendBatch_body zero_Message UnmarshalJSON).
Local Abbreviation SendBatch := (SendBatch clock zero_Message UnmarshalJSON).
Local Abbreviation decodes := (decodes zero_Message UnmarshalJSON).
Local Abbreviation topic := (fcmTopic W Message).
Local Abbreviation request := (driver.Message W Message).
Local Abbreviation trace := (list (event Message)).
Local Abbreviation emits := (@emits W Message _).

Implicit Types (t : topic) (dms : list request) (w : W) (tr : trace).

(** ** ErrorCode *)

Lemma ErrorCode_cases t (e : error) :
  ErrorCode t e = match e with Some _ => gcerrors.OK | None => gcerrors.Unknown end.
Proof. destruct e; reflexivity. Qed.

(** C1: the code classifies the other way round: every non-nil error
    is mapped to OK and the nil error to Unknown. *)
Theorem ErrorCode_inverted t :
  (forall e : err, ErrorCode t (Some e) = gcerrors.OK) /\
  ErrorCode t None = gcerrors.Unknown.
Proof. split; [intros e|]; rewrite ErrorCode_cases; reflexivity. Qed.

(** ** Sorts of events in a run *)

Lemma emits_ret {A} ss (a : A) : emits ss (ret a).
Proof. intros w. constructor. Qed.

Lemma emits_return {A} ss e : emits ss (@return_ W Message A e).
Proof. intros w. constructor. Qed.

Lemma emits_raise {A} ss p : emits ss (@raise W Message A p).
Proof. intros w. constructor. Qed.

Lemma emits_call {A} ss (f : W -> A * W) ev :
  (forall a, In (sort_of (ev a)) ss) -> emits ss (call f ev).
Proof.
  intros H w. unfold call, trace_of. destruct (f w) as [a w1]. simpl.
  constructor; [apply H | constructor].
Qed.

Lemma emits_bind {A B} ss (m : run W Message A) (k : A -> run W Message B) :
  emits ss m -> (forall a, emits ss (k a)) -> emits ss (bind m k).
Proof.
  intros Hm Hk w. unfold bind, trace_of. specialize (Hm w).
  destruct (m w) as [[[a | e | p] w1] t1]; simpl in *; trivial.
  specialize (Hk a w1). destruct (k a w1) as [[o w2] t2]. simpl in *.
  apply Forall_app. split; assumption.
Qed.

Lemma emits_weaken {A} ss ss' (m : run W Message A) :
  incl ss ss' -> emits ss m -> emits ss' m.
Proof.
  intros Hi Hm w. eapply Forall_impl; [apply Hm|]. intros ev H. apply Hi, H.
Qed.

Lemma emits_index {A} ss (s : list A) n : emits ss (index s n).
Proof. unfold index. destruct (s !! n); [apply emits_ret | apply emits_raise]. Qed.

Lemma emits_deref {A} ss (p : option A) : emits ss (deref p).
Proof. destruct p; [apply emits_ret | apply emits_raise]. Qed.

Ltac in_sorts := simpl; tauto.

Lemma emits_Logger_Error ss t msg fields :
  In Log ss -> emits ss (Logger_Error t msg fields).
Proof.
  intros H. unfold Logger_Error. destruct (Logger (opts t)).
  - apply emits_call. intros _. exact H.
  - apply emits_raise.
Qed.

Lemma emits_Count ss t stat count tags :
  In CountMetric ss -> emits ss (MetricService_Count t stat count tags).
Proof.
  intros H. unfold MetricService_Count. destruct (MetricService (opts t)).
  - apply emits_call. intros _. exact H.
  - apply emits_raise.
Qed.

Lemma emits_decode_loop ss dms : forall n entries,
  In Before ss -> emits ss (decode_loop n dms entries).
Proof.
  induction dms as [|dm rest IH]; intros n entries H; simpl.
  - apply emits_ret.
  - apply emits_bind.
    { destruct (UnmarshalJSON _ _) as [m [e|]];
        [apply emits_return | apply emits_ret]. }
    intros entry. apply emits_bind; [|intros entry'; apply IH, H].
    destruct (driver.BeforeSend dm) as [hook|]; [|apply emits_ret].
    apply emits_bind; [apply emits_call; intros a; exact H|].
    intros [m [e|]]; [apply emits_return | apply emits_ret].
Qed.

Lemma emits_send ss t entries : In Backend ss -> emits ss (send t entries).
Proof.
  intros H. unfold send.
  destruct (DryRun (opts t)); apply emits_call; intros a; exact H.
Qed.

Lemma emits_call_AfterSend ss n hook responses :
  In After ss -> emits ss (call_AfterSend n hook responses).
Proof.
  intros H. unfold call_AfterSend.
  apply emits_bind; [apply emits_index|]. intros r.
  apply emits_bind; [apply emits_call; intros a; exact H|].
  intros [r' [e|]]; [apply emits_return | apply emits_ret].
Qed.

Lemma emits_log_entry ss t entries n re :
  In Log ss -> emits ss (log_entry t entries n re).
Proof.
  intros HL. unfold log_entry.
  destruct (messaging.Error re); [|apply emits_ret].
  apply emits_bind; [apply emits_index|]. intros entry.
  apply emits_Logger_Error, HL.
Qed.

Lemma emits_reconcile_entry ss t entries n dm responses :
  In After ss -> In Log ss ->
  emits ss (reconcile_entry t entries n dm responses).
Proof.
  intros HA HL. unfold reconcile_entry.
  apply emits_bind; [apply emits_index|]. intros r.
  apply emits_bind.
  { destruct (messaging.Success r); [|apply emits_ret].
    destruct (driver.AfterSend dm); [|apply emits_ret].
    apply emits_call_AfterSend, HA. }
  intros responses'. apply emits_bind; [apply emits_index|]. intros r'.
  apply emits_bind; [apply emits_log_entry, HL|].
  intros _. apply emits_ret.
Qed.

Lemma emits_reconcile_loop ss t entries dms : forall n responses,
  In After ss -> In Log ss ->
  emits ss (reconcile_loop t entries n dms responses).
Proof.
  induction dms as [|dm rest IH]; intros n responses HA HL; simpl.
  - apply emits_ret.
  - apply emits_bind; [apply emits_reconcile_entry; assumption|].
    intros responses'. apply IH; assumption.
Qed.

Lemma emits_success_loop ss dms : forall n responses,
  In After ss -> emits ss (success_loop n dms responses).
Proof.
  induction dms as [|dm rest IH]; intros n responses HA; simpl.
  - apply emits_ret.
  - apply emits_bind; [|intros r; apply IH, HA].
    destruct (driver.AfterSend dm); [|apply emits_ret].
    apply emits_call_AfterSend, HA.
Qed.

Lemma emits_all_succeeded ss dms resp responses :
  In After ss -> emits ss (all_succeeded dms resp responses).
Proof.
  intros HA. unfold all_succeeded.
  destruct (_ =? _); [apply emits_success_loop, HA | apply emits_ret].
Qed.

Lemma emits_reconcile ss t dms entries resp :
  In CountMetric ss -> In After ss -> In Log ss ->
  emits ss (reconcile t dms entries resp).
Proof.
  intros HC HA HL. unfold reconcile, count_failures.
  apply emits_bind.
  { destruct (0 <? _); [apply emits_Count, HC | apply emits_ret]. }
  intros _. apply emits_bind; [apply emits_reconcile_loop; assumption|].
  intros responses. apply emits_bind; [|intros _; apply emits_return].
  apply emits_all_succeeded, HA.
Qed.

Lemma emits_respond ss t dms entries r :
  In CountMetric ss -> In After ss -> In Log ss ->
  emits ss (respond t dms entries r).
Proof.
  intros HC HA HL. unfold respond. destruct r as [resp [e|]]; simpl.
  - apply emits_bind; [apply emits_Logger_Error, HL|].
    intros _. apply emits_return.
  - apply emits_bind; [apply emits_deref|]. intros r.
    apply emits_reconcile; assumption.
Qed.

Lemma emits_submit ss t dms entries :
  In Backend ss -> In CountMetric ss -> In After ss -> In Log ss ->
  emits ss (submit t dms entries).
Proof.
  intros HB HC HA HL. unfold submit.
  apply emits_bind; [apply emits_send, HB|]. intros r.
  apply emits_respond; assumption.
Qed.

Lemma emits_body t dms :
  emits [Before; Backend; Log; CountMetric; After] (SendBatch_body t dms).
Proof.
  unfold SendBatch_body.
  apply emits_bind; [apply emits_decode_loop; in_sorts|].
  intros entries. apply emits_submit; in_sorts.
Qed.

(** ** Projections of a trace *)

Lemma only_app s tr1 tr2 : only s (tr1 ++ tr2) = only s tr1 ++ only s tr2.
Proof. apply List.filter_app. Qed.

Lemma before_sends_app tr1 tr2 :
  before_sends (tr1 ++ tr2) = before_sends tr1 ++ before_sends tr2.
Proof. apply omap_app. Qed.

Lemma before_errors_app tr1 tr2 :
  before_errors (tr1 ++ tr2) = before_errors tr1 ++ before_errors tr2.
Proof. apply omap_app. Qed.

Lemma after_sends_app tr1 tr2 :
  after_sends (tr1 ++ tr2) = after_sends tr1 ++ after_sends tr2.
Proof. apply omap_app. Qed.

Lemma after_errors_app tr1 tr2 :
  after_errors (tr1 ++ tr2) = after_errors tr1 ++ after_errors tr2.
Proof. apply omap_app. Qed.

Lemma backend_rets_app tr1 tr2 :
  backend_rets (tr1 ++ tr2) = backend_rets tr1 ++ backend_rets tr2.
Proof. apply omap_app. Qed.

Lemma sort_eqb_eq a b : sort_eqb a b = true <-> a = b.
Proof. destruct a, b; simpl; split; congruence. Qed.

Lemma only_absent s ss tr :
  ~ In s ss -> Forall (fun ev => In (sort_of ev) ss) tr -> only s tr = [].
Proof.
  intros Hs. induction 1 as [|ev tr Hev _ IH]; [reflexivity|].
  unfold only in *. simpl.
  destruct (sort_eqb (sort_of ev) s) eqn:E; [|exact IH].
  apply sort_eqb_eq in E. subst s. contradiction.
Qed.

Lemma before_absent ss tr :
  ~ In Before ss -> Forall (fun ev => In (sort_of ev) ss) tr ->
  before_sends tr = [] /\ before_errors tr = [].
Proof.
  intros Hs. induction 1 as [|ev tr Hev _ [IH1 IH2]]; [split; reflexivity|].
  destruct ev; simpl in *; try (split; assumption); contradiction.
Qed.

Lemma after_absent ss tr :
  ~ In After ss -> Forall (fun ev => In (sort_of ev) ss) tr ->
  after_sends tr = [] /\ after_errors tr = [].
Proof.
  intros Hs. induction 1 as [|ev tr Hev _ [IH1 IH2]]; [split; reflexivity|].
  destruct ev; simpl in *; try (split; assumption); contradiction.
Qed.

Lemma backend_absent ss tr :
  ~ In Backend ss -> Forall (fun ev => In (sort_of ev) ss) tr ->
  backend_rets tr = [].
Proof.
  intros Hs. induction 1 as [|ev tr Hev _ IH]; [reflexivity|].
  destruct ev; simpl in *; try assumption; contradiction.
Qed.

(** ** The deferred latency metric *)

Lemma SendBatch_unfold t dms w :
  SendBatch t dms w =
    let r := SendBatch_body t dms w in
    match MetricService (opts t) with
    | None => (Panicked NilDereference, world_of r, trace_of r)
    | Some ms =>
        let d := clock (world_of r) - clock w in
        (finish (outcome_of r),
         Timing ms "firebase.messagine.sendBatch.latency" d (Tags (opts t))
           (world_of r),
         trace_of r ++
           [EvTiming "firebase.messagine.sendBatch.latency" d (Tags (opts t))])
    end.
Proof.
  unfold SendBatch, func, bind, time_Now, defer, time_Since,
    MetricService_Timing, call, raise, outcome_of, world_of, trace_of.
  simpl. destruct (SendBatch_body t dms w) as [[o w1] t1]. simpl.
  destruct (MetricService (opts t)) as [ms|]; simpl.
  - destruct o; reflexivity.
  - rewrite app_nil_r. reflexivity.
Qed.

Lemma body_no_timing t dms w :
  only TimingMetric (trace_of (SendBatch_body t dms w)) = [].
Proof.
  eapply only_absent; [|apply emits_body]. simpl. intuition discriminate.
Qed.

(** C8: with a metrics sink configured, a call of SendBatch emits the
    latency timing exactly once, whatever its outcome; it is the last
    event of the call, after everything the body did, and its duration
    runs from the clock reading at entry to the reading at exit. *)
Theorem latency_emitted_once t dms w ms :
  MetricService (opts t) = Some ms ->
  let body := SendBatch_body t dms w in
  let ev :=
    EvTiming "firebase.messagine.sendBatch.latency"
      (clock (world_of body) - clock w) (Tags (opts t)) in
  only TimingMetric (trace_of (SendBatch t dms w)) = [ev] /\
  trace_of (SendBatch t dms w) = trace_of body ++ [ev] /\
  only TimingMetric (trace_of body) = [] /\
  outcome_of (SendBatch t dms w) = finish (outcome_of body).
Proof.
  intros Hms body ev.
  assert (Hb : only TimingMetric (trace_of body) = [])
    by apply body_no_timing.
  rewrite SendBatch_unfold, Hms. fold body. cbn zeta. fold ev.
  unfold trace_of, outcome_of in *. simpl.
  rewrite only_app, Hb. repeat split.
Qed.

(** ** The shape of a run *)

Lemma trace_of_triple {A} (o : outcome A) w tr : trace_of (o, w, tr) = tr.
Proof. reflexivity. Qed.

Lemma outcome_of_triple {A} (o : outcome A) w tr : outcome_of (o, w, tr) = o.
Proof. reflexivity. Qed.

Lemma world_of_triple {A} (o : outcome A) w tr : world_of (o, w, tr) = w.
Proof. reflexivity. Qed.

Create Rewrite HintDb run.
Hint Rewrite @trace_of_triple @outcome_of_triple @world_of_triple : run.

Lemma bind_run {A B} (m : run W Message A) (k : A -> run W Message B) w :
  bind m k w =
    match outcome_of (m w) with
    | Normal a =>
        let r := k a (world_of (m w)) in
        (outcome_of r, world_of r, trace_of (m w) ++ trace_of r)
    | Returned e => (Returned e, world_of (m w), trace_of (m w))
    | Panicked p => (Panicked p, world_of (m w), trace_of (m w))
    end.
Proof.
  unfold bind, outcome_of, world_of, trace_of.
  destruct (m w) as [[[a | e | p] w1] t1]; simpl; trivial.
  destruct (k a w1) as [[o w2] t2]. reflexivity.
Qed.

(** The trace of a call is the trace of its body, then the latency
    timing when the sink is there. *)
Lemma SendBatch_trace t dms w :
  exists tl,
    trace_of (SendBatch t dms w) = trace_of (SendBatch_body t dms w) ++ tl /\
    Forall (fun ev => In (sort_of ev) [TimingMetric]) tl.
Proof.
  rewrite SendBatch_unfold. cbn zeta.
  destruct (MetricService (opts t)) as [ms|].
  - eexists. split; [reflexivity|]. repeat constructor.
  - exists []. split; [unfold trace_of; simpl; now rewrite app_nil_r|].
    constructor.
Qed.

Lemma SendBatch_outcome t dms w :
  is_panic (outcome_of (SendBatch t dms w)) = false ->
  (exists ms, MetricService (opts t) = Some ms) /\
  is_panic (outcome_of (SendBatch_body t dms w)) = false /\
  outcome_of (SendBatch t dms w) = finish (outcome_of (SendBatch_body t dms w)).
Proof.
  rewrite SendBatch_unfold. cbn zeta.
  destruct (MetricService (opts t)) as [ms|]; unfold outcome_of at 1; simpl;
    [|discriminate].
  intros H. split; [eauto|]. split; [|reflexivity].
  destruct (outcome_of (SendBatch_body t dms w)); trivial.
Qed.

Lemma bind_trace {A B} (m : run W Message A) (k : A -> run W Message B) w :
  trace_of (bind m k w) =
    trace_of (m w) ++
    match outcome_of (m w) with
    | Normal a => trace_of (k a (world_of (m w)))
    | _ => []
    end.
Proof.
  rewrite bind_run. destruct (outcome_of (m w)); autorewrite with run;
    trivial; now rewrite app_nil_r.
Qed.

Lemma bind_outcome {A B} (m : run W Message A) (k : A -> run W Message B) w :
  outcome_of (bind m k w) =
    match outcome_of (m w) with
    | Normal a => outcome_of (k a (world_of (m w)))
    | Returned e => Returned e
    | Panicked p => Panicked p
    end.
Proof. rewrite bind_run. destruct (outcome_of (m w)); reflexivity. Qed.

Lemma body_run t dms w :
  SendBatch_body t dms w =
    let d := decode_loop 0 dms [] w in
    match outcome_of d with
    | Normal entries =>
        let r := submit t dms entries (world_of d) in
        (outcome_of r, world_of r, trace_of d ++ trace_of r)
    | Returned e => (Returned e, world_of d, trace_of d)
    | Panicked p => (Panicked p, world_of d, trace_of d)
    end.
Proof. unfold SendBatch_body. apply bind_run. Qed.

(** ** The first loop: decoding and before-send hooks *)

Lemma positions_length {A} (p : A -> bool) l : forall n,
  length (positions p n l) = length (List.filter p l).
Proof.
  induction l as [|a l IH]; intros n; simpl; [reflexivity|].
  rewrite length_app, IH. destruct (p a); reflexivity.
Qed.

Lemma positions_ge {A} (p : A -> bool) l : forall n,
  Forall (fun i => (n <= i)%nat) (positions p n l).
Proof.
  induction l as [|a l IH]; intros n; simpl; [constructor|].
  apply Forall_app. split.
  - destruct (p a); repeat constructor.
  - eapply Forall_impl; [apply IH|]. simpl. intros; lia.
Qed.

Lemma positions_below {A} (p : A -> bool) l n i :
  (i < n)%nat -> invocations i (positions p n l) = 0%nat.
Proof.
  intros Hi. apply count_occ_not_In. intros Hin.
  pose proof (positions_ge p l n) as Hge.
  rewrite List.Forall_forall in Hge. apply Hge in Hin. lia.
Qed.

(** Each position of an element that satisfies [p] occurs once, and no
    other position occurs. *)
Lemma positions_count {A} (p : A -> bool) l : forall n k a,
  l !! k = Some a ->
  invocations (n + k) (positions p n l) = if p a then 1%nat else 0%nat.
Proof.
  induction l as [|b l IH]; intros n k a Hk; [discriminate|].
  unfold invocations in *. simpl. rewrite count_occ_app.
  destruct k as [|k]; simpl in Hk.
  - injection Hk as ->. rewrite Nat.add_0_r.
    fold (invocations n (positions p (S n) l)).
    rewrite positions_below by lia.
    destruct (p a); simpl; [|reflexivity].
    destruct (Nat.eq_dec n n); [reflexivity | contradiction].
  - replace (n + S k)%nat with (S n + k)%nat by lia.
    rewrite (IH (S n) k a Hk).
    destruct (p b); simpl; [|reflexivity].
    destruct (Nat.eq_dec n _); [lia | reflexivity].
Qed.

Lemma positions_sorted {A} (p : A -> bool) l : forall n,
  StronglySorted lt (positions p n l).
Proof.
  induction l as [|a l IH]; intros n; simpl; [constructor|].
  destruct (p a); simpl; [|apply IH].
  constructor; [apply IH|].
  eapply Forall_impl; [apply (positions_ge p l (S n))|]. simpl. intros; lia.
Qed.

(** One turn of the first loop. *)
Lemma decode_loop_step n dm rest entries w :
  decode_loop n (dm :: rest) entries w =
    match UnmarshalJSON zero_Message (driver.Body dm) with
    | (_, Some e) => (Returned (Some e), w, [])
    | (m, None) =>
        match driver.BeforeSend dm with
        | None => decode_loop (S n) rest (entries ++ [m]) w
        | Some hook =>
            match hook m w with
            | ((_, Some e), w1) =>
                (Returned (Some e), w1, [EvBeforeSend n m (Some e)])
            | ((m', None), w1) =>
                let r := decode_loop (S n) rest (entries ++ [m']) w1 in
                (outcome_of r, world_of r, EvBeforeSend n m None :: trace_of r)
            end
        end
    end.
Proof.
  simpl. unfold bind, ret, return_, call.
  destruct (UnmarshalJSON zero_Message (driver.Body dm)) as [m [e|]];
    [reflexivity|].
  destruct (driver.BeforeSend dm) as [hook|].
  - destruct (hook m w) as [[m' [e|]] w1]; simpl; [reflexivity|].
    destruct (decode_loop (S n) rest (entries ++ [m']) w1) as [[o w2] t2].
    reflexivity.
  - destruct (decode_loop (S n) rest (entries ++ [m]) w) as [[o w2] t2].
    reflexivity.
Qed.

Lemma decode_loop_nil n entries w :
  decode_loop n [] entries w = (Normal entries, w, []).
Proof. reflexivity. Qed.

Lemma decode_loop_no_panic dms : forall n entries w,
  is_panic (outcome_of (decode_loop n dms entries w)) = false.
Proof.
  induction dms as [|dm rest IH]; intros n entries w; [reflexivity|].
  rewrite decode_loop_step.
  destruct (UnmarshalJSON _ _) as [m [e|]]; [reflexivity|].
  destruct (driver.BeforeSend dm) as [hook|]; [|apply IH].
  destruct (hook m w) as [[m' [e|]] w1]; [reflexivity|]. apply IH.
Qed.

(** When every payload decodes and no before-send hook returns an
    error, the loop runs to its end and has invoked the hooks of
    exactly the requests that carry one, in order. *)
Lemma decode_loop_complete dms : forall n entries w,
  Forall (fun dm => decodes dm = true) dms ->
  before_errors (trace_of (decode_loop n dms entries w)) = [] ->
  before_sends (trace_of (decode_loop n dms entries w)) =
    positions has_BeforeSend n dms /\
  exists entries',
    outcome_of (decode_loop n dms entries w) = Normal entries' /\
    length entries' = (length entries + length dms)%nat.
Proof.
  induction dms as [|dm rest IH]; intros n entries w Hd He.
  - split; [reflexivity|]. exists entries. split; [reflexivity|]. simpl. lia.
  - inversion Hd as [|? ? Hdm Hrest]; subst.
    rewrite decode_loop_step in *. unfold decodes in Hdm.
    unfold has_BeforeSend at 1. simpl positions.
    destruct (UnmarshalJSON zero_Message (driver.Body dm)) as [m [e|]];
      [discriminate|].
    destruct (driver.BeforeSend dm) as [hook|].
    + destruct (hook m w) as [[m' [e|]] w1]; [discriminate|].
      cbn zeta in *. unfold trace_of at 1 in He. unfold trace_of at 1.
      unfold outcome_of at 1. simpl in *.
      destruct (IH (S n) (entries ++ [m']) w1 Hrest He) as [Hb [en [Ho Hl]]].
      split; [now rewrite Hb|]. exists en. split; [exact Ho|].
      rewrite Hl, length_app. simpl. lia.
    + destruct (IH (S n) (entries ++ [m]) w Hrest He) as [Hb [en [Ho Hl]]].
      split; [exact Hb|]. exists en. split; [exact Ho|].
      rewrite Hl, length_app. simpl. lia.
Qed.

(** The projections of a whole call that concern the first loop. *)
Lemma SendBatch_before t dms w :
  before_sends (trace_of (SendBatch t dms w)) =
    before_sends (trace_of (decode_loop 0 dms [] w)) /\
  before_errors (trace_of (SendBatch t dms w)) =
    before_errors (trace_of (decode_loop 0 dms [] w)).
Proof.
  destruct (SendBatch_trace t dms w) as [tl [-> Htl]].
  rewrite before_sends_app, before_errors_app.
  destruct (before_absent [TimingMetric] tl) as [-> ->];
    [simpl; intuition discriminate | exact Htl |].
  rewrite !app_nil_r, body_run. cbn zeta.
  destruct (outcome_of (decode_loop 0 dms [] w)) as [entries|e|p];
    [|split; reflexivity..].
  autorewrite with run. rewrite before_sends_app, before_errors_app.
  destruct (before_absent [Backend; Log; CountMetric; After]
              (trace_of (submit t dms entries (world_of (decode_loop 0 dms [] w)))))
    as [-> ->].
  { simpl. intuition discriminate. }
  { apply emits_submit; in_sorts. }
  rewrite !app_nil_r. split; reflexivity.
Qed.

(** C7: when every payload decodes and no before-send hook returns an
    error, the before-send hooks invoked are those of the requests that
    supply one: as many invocations as such requests, each hook once,
    in batch order. *)
Theorem before_send_once_in_order t dms w :
  Forall (fun dm => decodes dm = true) dms ->
  before_errors (trace_of (SendBatch t dms w)) = [] ->
  let bs := before_sends (trace_of (SendBatch t dms w)) in
  bs = positions has_BeforeSend 0 dms /\
  length bs = length (List.filter has_BeforeSend dms) /\
  StronglySorted lt bs /\
  forall n dm, dms !! n = Some dm ->
    invocations n bs = if has_BeforeSend dm then 1%nat else 0%nat.
Proof.
  intros Hd He bs. subst bs.
  destruct (SendBatch_before t dms w) as [Hs Hes]. rewrite Hes in He.
  rewrite Hs.
  destruct (decode_loop_complete dms 0 [] w Hd He) as [-> _].
  split; [reflexivity|]. split; [apply positions_length|].
  split; [apply positions_sorted|].
  intros n dm Hn. apply (positions_count has_BeforeSend dms 0 n dm Hn).
Qed.

(** ** A payload that does not decode *)

Lemma Exists_first {A} (p : A -> bool) (l : list A) :
  Exists (fun a => p a = false) l ->
  exists pre bad post,
    l = pre ++ bad :: post /\
    Forall (fun a => p a = true) pre /\ p bad = false.
Proof.
  induction l as [|a l IH]; intros H; [inversion H|].
  destruct (p a) eqn:Ea.
  - inversion H as [? ? Ha | ? ? Hl]; subst; [congruence|].
    destruct (IH Hl) as [pre [bad [post [-> [Hpre Hbad]]]]].
    exists (a :: pre), bad, post. repeat split; trivial.
    constructor; assumption.
  - exists [], a, l. repeat split; trivial.
Qed.

(** The first loop stops at the first payload that does not decode:
    only hooks of earlier requests have run, each at most once and in
    order, and unless one of them returned an error the loop returns the
    decode error. *)
Lemma decode_loop_stops pre bad post : forall n entries w,
  Forall (fun dm => decodes dm = true) pre ->
  decodes bad = false ->
  let r := decode_loop n (pre ++ bad :: post) entries w in
  (exists e, outcome_of r = Returned (Some e)) /\
  (exists k, before_sends (trace_of r) =
               take k (positions has_BeforeSend n pre)) /\
  (before_errors (trace_of r) = [] ->
   before_sends (trace_of r) = positions has_BeforeSend n pre /\
   outcome_of r =
     Returned (snd (UnmarshalJSON zero_Message (driver.Body bad)))).
Proof.
  induction pre as [|dm pre IH]; intros n entries w Hpre Hbad r; subst r.
  - simpl app. rewrite decode_loop_step. unfold decodes in Hbad.
    destruct (UnmarshalJSON zero_Message (driver.Body bad)) as [m [e|]];
      [|discriminate].
    split; [eauto|]. split; [exists 0%nat; reflexivity|].
    intros _. split; reflexivity.
  - inversion Hpre as [|? ? Hdm Hrest]; subst.
    simpl app. rewrite decode_loop_step. unfold decodes in Hdm.
    unfold has_BeforeSend at 1 2. simpl positions.
    destruct (UnmarshalJSON zero_Message (driver.Body dm)) as [m [e|]];
      [discriminate|].
    destruct (driver.BeforeSend dm) as [hook|].
    + destruct (hook m w) as [[m' [e|]] w1].
      * split; [eauto|]. split; [exists 1%nat; reflexivity|]. discriminate.
      * cbn zeta. autorewrite with run.
        destruct (IH (S n) (entries ++ [m']) w1 Hrest Hbad)
          as [Ho [[k Hk] He]].
        split; [exact Ho|]. split.
        { exists (S k). simpl. now rewrite Hk. }
        simpl. intros Hnil. destruct (He Hnil) as [-> ->]. split; reflexivity.
    + simpl app. apply IH; assumption.
Qed.

(** When the first loop does not fall through, the call is that loop
    followed by the deferred timing. *)
Lemma body_stopped t dms w :
  (forall entries, outcome_of (decode_loop 0 dms [] w) <> Normal entries) ->
  trace_of (SendBatch_body t dms w) = trace_of (decode_loop 0 dms [] w) /\
  finish (outcome_of (SendBatch_body t dms w)) =
    finish (match outcome_of (decode_loop 0 dms [] w) with
            | Normal _ => Panicked NilDereference
            | Returned e => Returned e
            | Panicked p => Panicked p
            end).
Proof.
  intros H. rewrite body_run. cbn zeta.
  destruct (outcome_of (decode_loop 0 dms [] w)) as [entries|e|p];
    [destruct (H entries); reflexivity | split; reflexivity..].
Qed.

(** C3 (amended): when some payload does not decode, the call makes no
    backend call and invokes no after-send hook; it logs and counts
    nothing.  Before-send hooks run only for requests ahead of the first
    such payload, each at most once and in order; when none of them
    returns an error all of them have run and, with a metrics sink
    configured, the call returns the decode error of that payload. *)
Theorem decode_failure_aborts t dms w :
  Exists (fun dm => decodes dm = false) dms ->
  let r := SendBatch t dms w in
  backend_rets (trace_of r) = [] /\
  after_sends (trace_of r) = [] /\
  Forall (fun ev => In (sort_of ev) [Before; TimingMetric]) (trace_of r) /\
  exists pre bad post,
    dms = pre ++ bad :: post /\
    Forall (fun dm => decodes dm = true) pre /\
    decodes bad = false /\
    (exists k, before_sends (trace_of r) =
                 take k (positions has_BeforeSend 0 pre)) /\
    (before_errors (trace_of r) = [] ->
     before_sends (trace_of r) = positions has_BeforeSend 0 pre /\
     forall ms, MetricService (opts t) = Some ms ->
       outcome_of r =
         Normal (snd (UnmarshalJSON zero_Message (driver.Body bad)))).
Proof.
  intros Hex r.
  destruct (Exists_first decodes dms Hex) as [pre [bad [post [E [Hpre Hbad]]]]].
  destruct (decode_loop_stops pre bad post 0 [] w Hpre Hbad)
    as [[e Ho] [Hk Hnil]].
  rewrite <- E in *.
  assert (Hstop : forall entries,
             outcome_of (decode_loop 0 dms [] w) <> Normal entries)
    by (intros entries; rewrite Ho; discriminate).
  destruct (body_stopped t dms w Hstop) as [Htr Hfin].
  assert (Hall : Forall (fun ev => In (sort_of ev) [Before; TimingMetric])
                   (trace_of r)).
  { subst r. destruct (SendBatch_trace t dms w) as [tl [-> Htl]].
    rewrite Htr. apply Forall_app. split.
    - eapply Forall_impl; [apply (emits_decode_loop [Before]); in_sorts|].
      simpl. tauto.
    - eapply Forall_impl; [exact Htl|]. simpl. tauto. }
  destruct (SendBatch_before t dms w) as [Hbs Hbe]. fold r in Hbs, Hbe.
  split; [eapply backend_absent; [|exact Hall]; simpl; intuition discriminate|].
  split; [eapply after_absent; [|exact Hall]; simpl; intuition discriminate|].
  split; [exact Hall|].
  exists pre, bad, post. rewrite Hbs, Hbe.
  repeat (split; [assumption|]).
  intros Hn. destruct (Hnil Hn) as [Hb1 Ho1]. split; [exact Hb1|].
  intros ms Hms. subst r. rewrite SendBatch_unfold, Hms. cbn zeta.
  autorewrite with run. rewrite Hfin, Ho1. reflexivity.
Qed.

(** ** The loops over the response entries *)

Ltac run_cases :=
  unfold reconcile_entry, call_AfterSend, log_entry, Logger_Error, index,
    deref, bind, ret, return_, raise, call, outcome_of, world_of, trace_of,
    has_AfterSend in *;
  repeat (case_match; simplify_eq; simpl in *).

Lemma call_AfterSend_run n hook (responses : list messaging.SendResponse) w :
  call_AfterSend n hook responses w =
    match responses !! n return outcome (list messaging.SendResponse) * W * trace with
    | None => (Panicked IndexOutOfRange, w, [])
    | Some re =>
        let r := hook re w in
        (match snd (fst r) with
         | Some e => Returned (Some e)
         | None => Normal (<[n := fst (fst r)]> responses)
         end, snd r, [EvAfterSend n re (snd (fst r))])
    end.
Proof. run_cases; reflexivity. Qed.

(** A turn on an index outside the responses panics at once. *)
Lemma reconcile_entry_out_of_range t entries n dm
    (responses : list messaging.SendResponse) w :
  responses !! n = None ->
  reconcile_entry t entries n dm responses w =
    (Panicked IndexOutOfRange, w, []).
Proof. intros H. run_cases; reflexivity. Qed.

(** A turn invokes the after-send hook of its request exactly when the
    entry signals success and the request carries a hook. *)
Lemma reconcile_entry_after t entries n dm
    (responses : list messaging.SendResponse) w re :
  responses !! n = Some re ->
  after_sends (trace_of (reconcile_entry t entries n dm responses w)) =
    if messaging.Success re && has_AfterSend dm then [n] else [].
Proof. intros H. run_cases; reflexivity. Qed.

Lemma reconcile_entry_returned t entries n dm responses w e :
  outcome_of (reconcile_entry t entries n dm responses w) = Returned e ->
  after_errors (trace_of (reconcile_entry t entries n dm responses w)) <> [].
Proof. intros H. run_cases; discriminate. Qed.

(** A turn that falls through has changed no entry but its own. *)
Lemma reconcile_entry_normal t entries n dm responses w responses' :
  outcome_of (reconcile_entry t entries n dm responses w) = Normal responses' ->
  length responses' = length responses /\
  forall j, j <> n -> responses' !! j = responses !! j.
Proof.
  intros H. run_cases; (split; [try apply length_insert; reflexivity|]);
    intros j Hj; try reflexivity; apply list_lookup_insert_ne; congruence.
Qed.

Lemma successful_hooked_ext dms : forall n (l1 l2 : list messaging.SendResponse),
  (forall j, (n <= j)%nat -> l1 !! j = l2 !! j) ->
  successful_hooked n dms l1 = successful_hooked n dms l2.
Proof.
  induction dms as [|dm rest IH]; intros n l1 l2 H; simpl; [reflexivity|].
  rewrite (H n) by lia. f_equal. apply IH. intros j Hj. apply H. lia.
Qed.

(** The first pass, when it runs to its end: the after-send hooks
    invoked are those of the requests whose entry, as the backend
    returned it, signals success. *)
Lemma reconcile_loop_after t entries dms :
  forall n (responses : list messaging.SendResponse) w,
  let r := reconcile_loop t entries n dms responses w in
  is_panic (outcome_of r) = false ->
  after_errors (trace_of r) = [] ->
  after_sends (trace_of r) = successful_hooked n dms responses /\
  exists responses',
    outcome_of r = Normal responses' /\ length responses' = length responses.
Proof.
  induction dms as [|dm rest IH]; intros n responses w r Hp He; subst r.
  - split; [reflexivity|]. exists responses. split; reflexivity.
  - simpl reconcile_loop in *.
    rewrite bind_outcome in Hp |- *. rewrite bind_trace in He |- *.
    destruct (outcome_of (reconcile_entry t entries n dm responses w))
      as [responses1|e|p] eqn:Ho; [| |discriminate].
    + destruct (reconcile_entry_normal _ _ _ _ _ _ _ Ho) as [Hlen Hsame].
      rewrite after_errors_app in He. apply app_eq_nil in He as [_ He2].
      destruct (IH _ _ _ Hp He2) as [Ha [responses' [Hn Hl]]].
      rewrite after_sends_app, Ha. simpl successful_hooked.
      destruct (responses !! n) as [re|] eqn:Hn0.
      * rewrite (reconcile_entry_after _ _ _ _ _ _ re Hn0).
        split; [|exists responses'; split; [exact Hn | congruence]].
        f_equal. apply successful_hooked_ext. intros j Hj.
        apply Hsame. lia.
      * rewrite reconcile_entry_out_of_range in Ho by exact Hn0.
        discriminate.
    + rewrite app_nil_r in He.
      destruct (reconcile_entry_returned _ _ _ _ _ _ _ Ho He).
Qed.

(** The second pass, when it runs to its end, invokes the after-send
    hook of every request that carries one. *)
Lemma success_loop_after dms :
  forall n (responses : list messaging.SendResponse) w,
  let r := success_loop n dms responses w in
  is_panic (outcome_of r) = false ->
  after_errors (trace_of r) = [] ->
  after_sends (trace_of r) = positions has_AfterSend n dms /\
  exists responses', outcome_of r = Normal responses'.
Proof.
  induction dms as [|dm rest IH]; intros n responses w r Hp He; subst r.
  - split; [reflexivity|]. exists responses. reflexivity.
  - simpl success_loop in *. simpl positions. unfold has_AfterSend at 1.
    rewrite bind_outcome in Hp |- *. rewrite bind_trace in He |- *.
    destruct (driver.AfterSend dm) as [hook|].
    + rewrite call_AfterSend_run in *.
      destruct (responses !! n) as [re|]; [|discriminate].
      cbn zeta in *. autorewrite with run in *.
      destruct (hook re w) as [[re' [e|]] w1]; simpl in *; [discriminate|].
      destruct (IH _ _ _ Hp He) as [-> Hn]. split; [reflexivity | exact Hn].
    + unfold ret in *. autorewrite with run in *. simpl in *.
      apply IH; assumption.
Qed.

(** ** After the backend call *)

Lemma count_failures_run t (resp : messaging.BatchResponse) w :
  let c := count_failures t resp w in
  (is_panic (outcome_of c) = false -> outcome_of c = Normal tt) /\
  Forall (fun ev => In (sort_of ev) [CountMetric]) (trace_of c) /\
  (forall ms, MetricService (opts t) = Some ms ->
     outcome_of c = Normal tt /\
     trace_of c =
       if 0 <? messaging.FailureCount resp
       then [EvCount "firebase.message.sendBatch.failure"
               (messaging.FailureCount resp) (Tags (opts t))]
       else []).
Proof.
  unfold count_failures, MetricService_Count.
  destruct (0 <? messaging.FailureCount resp);
    [destruct (MetricService (opts t)) as [ms|]|]; cbn;
    repeat split; try discriminate; repeat constructor.
Qed.

Lemma reconcile_after t dms entries resp w :
  let r := reconcile t dms entries resp w in
  is_panic (outcome_of r) = false ->
  after_errors (trace_of r) = [] ->
  after_sends (trace_of r) =
    successful_hooked 0 dms (messaging.Responses resp) ++
    (if messaging.SuccessCount resp =? Z.of_nat (length dms)
     then positions has_AfterSend 0 dms else []) /\
  outcome_of r = Returned None /\
  exists responses',
    outcome_of (reconcile_loop t entries 0 dms (messaging.Responses resp)
                  (world_of (count_failures t resp w))) = Normal responses'.
Proof.
  intros r Hp He. subst r. unfold reconcile in *.
  destruct (count_failures_run t resp w) as [Hc [Hsorts _]].
  rewrite bind_outcome in Hp |- *. rewrite bind_trace in He |- *.
  set (c := count_failures t resp w) in *.
  destruct (after_absent [CountMetric] (trace_of c)) as [Hca Hce];
    [simpl; intuition discriminate | exact Hsorts |].
  rewrite after_sends_app, Hca. rewrite after_errors_app, Hce in He.
  simpl app in *.
  destruct (outcome_of c) as [[]|e|p] eqn:Hoc;
    [|specialize (Hc Hp); discriminate..].
  rewrite bind_outcome in Hp |- *. rewrite bind_trace in He |- *.
  rewrite after_errors_app in He. apply app_eq_nil in He as [He1 He2].
  rewrite after_sends_app.
  set (r1 := reconcile_loop t entries 0 dms (messaging.Responses resp)
               (world_of c)) in *.
  assert (Hp1 : is_panic (outcome_of r1) = false)
    by (destruct (outcome_of r1); trivial).
  destruct (reconcile_loop_after t entries dms 0 _ _ Hp1 He1)
    as [Ha1 [responses' [Ho1 _]]].
  fold r1 in Ha1, Ho1. rewrite Ha1, Ho1 in *.
  rewrite bind_outcome in Hp |- *. rewrite bind_trace in He2 |- *.
  rewrite after_errors_app in He2. apply app_eq_nil in He2 as [He2 _].
  rewrite after_sends_app. unfold all_succeeded in *.
  destruct (messaging.SuccessCount resp =? Z.of_nat (length dms)).
  - set (r2 := success_loop 0 dms responses' (world_of r1)) in *.
    assert (Hp2 : is_panic (outcome_of r2) = false)
      by (destruct (outcome_of r2); trivial).
    destruct (success_loop_after dms 0 _ _ Hp2 He2) as [Ha2 [rs Ho2]].
    fold r2 in Ha2, Ho2. rewrite Ha2, Ho2. simpl.
    rewrite app_nil_r. repeat split. eauto.
  - simpl. repeat split. eauto.
Qed.

Lemma reconcile_counts t dms entries resp w ms :
  MetricService (opts t) = Some ms ->
  only CountMetric (trace_of (reconcile t dms entries resp w)) =
    if 0 <? messaging.FailureCount resp
    then [EvCount "firebase.message.sendBatch.failure"
            (messaging.FailureCount resp) (Tags (opts t))]
    else [].
Proof.
  intros Hms. unfold reconcile.
  destruct (count_failures_run t resp w) as [_ [_ Hc]].
  destruct (Hc ms Hms) as [Ho Ht]. clear Hc.
  rewrite bind_trace, only_app. rewrite Ho, Ht.
  match goal with |- _ ++ only _ (trace_of (?m ?w')) = _ =>
    assert (Hrest : only CountMetric (trace_of (m w')) = [])
  end.
  { eapply (only_absent CountMetric [After; Log]);
      [simpl; intuition discriminate|].
    apply emits_bind; [apply emits_reconcile_loop; in_sorts|].
    intros responses. apply emits_bind; [|intros _; apply emits_return].
    apply emits_all_succeeded; in_sorts. }
  rewrite Hrest, app_nil_r.
  destruct (0 <? messaging.FailureCount resp); reflexivity.
Qed.

Lemma decode_loop_length dms : forall n entries w entries',
  outcome_of (decode_loop n dms entries w) = Normal entries' ->
  length entries' = (length entries + length dms)%nat.
Proof.
  induction dms as [|dm rest IH]; intros n entries w entries' Ho.
  - injection Ho as <-. simpl. lia.
  - rewrite decode_loop_step in Ho.
    destruct (UnmarshalJSON _ _) as [m [e|]]; [discriminate|].
    destruct (driver.BeforeSend dm) as [hook|].
    + destruct (hook m w) as [[m' [e|]] w1]; [discriminate|].
      cbn zeta in Ho. autorewrite with run in Ho.
      rewrite (IH _ _ _ _ Ho), length_app. simpl. lia.
    + rewrite (IH _ _ _ _ Ho), length_app. simpl. lia.
Qed.

Lemma send_run t entries w :
  exists r w2 ev,
    send t entries w = (Normal r, w2, [ev]) /\
    sort_of ev = Backend /\ backend_rets [ev] = [r] /\
    is_live ev = negb (DryRun (opts t)) /\ is_dry ev = DryRun (opts t).
Proof.
  unfold send, call. destruct (DryRun (opts t)).
  - destruct (messaging.SendAllDryRun (client t) entries w) as [r w2].
    exists r, w2. eexists. repeat split.
  - destruct (messaging.SendAll (client t) entries w) as [r w2].
    exists r, w2. eexists. repeat split.
Qed.

(** A call in which the backend answered [r]: the first loop ran to
    its end, the backend was called once, and the rest of the call is
    [respond] on that answer. *)
Lemma backend_answer t dms w r :
  In r (backend_rets (trace_of (SendBatch t dms w))) ->
  exists entries w2 tr0,
    length entries = length dms /\
    Forall (fun ev => In (sort_of ev) [Before; Backend]) tr0 /\
    backend_rets (trace_of (SendBatch t dms w)) = [r] /\
    trace_of (SendBatch_body t dms w) =
      tr0 ++ trace_of (respond t dms entries r w2) /\
    outcome_of (SendBatch_body t dms w) =
      outcome_of (respond t dms entries r w2).
Proof.
  destruct (SendBatch_trace t dms w) as [tl [-> Htl]].
  rewrite backend_rets_app.
  rewrite (backend_absent [TimingMetric] tl), app_nil_r;
    [|simpl; intuition discriminate | exact Htl].
  rewrite body_run. cbn zeta.
  pose proof (emits_decode_loop [Before] dms 0 [] (or_introl eq_refl) w) as Hd.
  pose proof (decode_loop_length dms 0 [] w) as Hlen.
  set (d := decode_loop 0 dms [] w) in *.
  assert (Hdb : backend_rets (trace_of d) = []).
  { eapply backend_absent; [|exact Hd]. simpl. intuition discriminate. }
  destruct (outcome_of d) as [entries|e|p]; autorewrite with run;
    [|rewrite Hdb; intros []..].
  unfold submit. rewrite bind_trace, bind_outcome.
  destruct (send_run t entries (world_of d)) as [r0 [w2 [ev [Hs [Hev [Hr _]]]]]].
  rewrite Hs. autorewrite with run.
  rewrite !backend_rets_app, Hdb, Hr.
  rewrite (backend_absent [CountMetric; After; Log]
             (trace_of (respond t dms entries r0 w2)));
    [|simpl; intuition discriminate | apply emits_respond; in_sorts].
  simpl. intros [<-|[]].
  exists entries, w2, (trace_of d ++ [ev]).
  split; [apply (Hlen entries eq_refl)|].
  split.
  { apply Forall_app. split.
    - eapply Forall_impl; [exact Hd|]. simpl. tauto.
    - constructor; [rewrite Hev; in_sorts | constructor]. }
  split; [reflexivity|]. split; [|reflexivity].
  now rewrite <- app_assoc.
Qed.

(** What such a call logged, counted and invoked after the send is
    what [respond] did. *)
Lemma answered_projections t dms w tr0 tr1 :
  Forall (fun ev => In (sort_of ev) [Before; Backend]) tr0 ->
  trace_of (SendBatch_body t dms w) = tr0 ++ tr1 ->
  only Log (trace_of (SendBatch t dms w)) = only Log tr1 /\
  only CountMetric (trace_of (SendBatch t dms w)) = only CountMetric tr1 /\
  after_sends (trace_of (SendBatch t dms w)) = after_sends tr1 /\
  after_errors (trace_of (SendBatch t dms w)) = after_errors tr1.
Proof.
  intros H0 Hb.
  destruct (SendBatch_trace t dms w) as [tl [-> Htl]]. rewrite Hb.
  rewrite !only_app, !after_sends_app, !after_errors_app.
  rewrite (only_absent Log [Before; Backend] tr0),
    (only_absent Log [TimingMetric] tl),
    (only_absent CountMetric [Before; Backend] tr0),
    (only_absent CountMetric [TimingMetric] tl);
    try assumption; try (simpl; intuition discriminate).
  destruct (after_absent [Before; Backend] tr0) as [-> ->];
    [simpl; intuition discriminate | assumption |].
  destruct (after_absent [TimingMetric] tl) as [-> ->];
    [simpl; intuition discriminate | assumption |].
  simpl. rewrite !app_nil_r. repeat split.
Qed.

Lemma respond_ok t dms entries resp w :
  trace_of (respond t dms entries (Some resp, None) w) =
    trace_of (reconcile t dms entries resp w) /\
  outcome_of (respond t dms entries (Some resp, None) w) =
    outcome_of (reconcile t dms entries resp w).
Proof.
  unfold respond. simpl. rewrite bind_trace, bind_outcome. split; reflexivity.
Qed.

Lemma respond_failed t dms entries o e w :
  respond t dms entries (o, Some e) w =
    match Logger (opts t) with
    | Some l =>
        let msg := "Error from response entity" in
        let fields :=
          [zap.String "from" "pubsub.firebase.sendBatch.response";
           zap.Error (Some e)] in
        (Returned (Some e), zap.Logger_Error l msg fields w,
         [EvLogError msg fields])
    | None => (Panicked NilDereference, w, [])
    end.
Proof.
  unfold respond, Logger_Error, bind, call, raise, return_. simpl.
  destruct (Logger (opts t)); reflexivity.
Qed.

Lemma successful_hooked_ge dms : forall n (rs : list messaging.SendResponse),
  Forall (fun i => (n <= i)%nat) (successful_hooked n dms rs).
Proof.
  induction dms as [|dm rest IH]; intros n rs; simpl; [constructor|].
  apply Forall_app. split.
  - destruct (rs !! n) as [re|]; [|constructor].
    destruct (_ && _); repeat constructor.
  - eapply Forall_impl; [apply IH|]. simpl. intros; lia.
Qed.

Lemma successful_hooked_below dms n (rs : list messaging.SendResponse) i :
  (i < n)%nat -> invocations i (successful_hooked n dms rs) = 0%nat.
Proof.
  intros Hi. apply count_occ_not_In. intros Hin.
  pose proof (successful_hooked_ge dms n rs) as Hge.
  rewrite List.Forall_forall in Hge. apply Hge in Hin. lia.
Qed.

(** In the first pass a request occurs once when its entry signals
    success and it carries a hook, and not at all otherwise. *)
Lemma successful_hooked_count dms :
  forall n k dm (rs : list messaging.SendResponse) re,
  dms !! k = Some dm -> rs !! (n + k)%nat = Some re ->
  invocations (n + k) (successful_hooked n dms rs) =
    if messaging.Success re && has_AfterSend dm then 1%nat else 0%nat.
Proof.
  induction dms as [|d rest IH]; intros n k dm rs re Hk Hre; [discriminate|].
  unfold invocations in *. simpl. rewrite count_occ_app.
  destruct k as [|k]; simpl in Hk.
  - injection Hk as ->. rewrite Nat.add_0_r in *. rewrite Hre.
    fold (invocations n (successful_hooked (S n) rest rs)).
    rewrite successful_hooked_below by lia.
    destruct (_ && _); simpl; [|reflexivity].
    destruct (Nat.eq_dec n n); [reflexivity | contradiction].
  - replace (n + S k)%nat with (S n + k)%nat in * by lia.
    rewrite (IH (S n) k dm rs re Hk Hre).
    destruct (rs !! n) as [r0|]; [|reflexivity].
    destruct (_ && _); simpl; [|reflexivity].
    destruct (Nat.eq_dec n _); [lia | reflexivity].
Qed.

(** The after-send hooks of a call that the backend answered without
    error, that no after-send hook stopped and that did not panic: the
    first pass over the successful entries, then, when the success
    count equals the number of requests, the second pass over all
    requests. *)
Lemma after_sends_of_run t dms w resp :
  let r := SendBatch t dms w in
  In (Some resp, None) (backend_rets (trace_of r)) ->
  after_errors (trace_of r) = [] ->
  is_panic (outcome_of r) = false ->
  after_sends (trace_of r) =
    successful_hooked 0 dms (messaging.Responses resp) ++
    (if messaging.SuccessCount resp =? Z.of_nat (length dms)
     then positions has_AfterSend 0 dms else []) /\
  outcome_of r = Normal None.
Proof.
  intros r Hin He Hp. subst r.
  destruct (backend_answer t dms w _ Hin)
    as [entries [w2 [tr0 [_ [H0 [_ [Htr Hout]]]]]]].
  destruct (answered_projections t dms w tr0 _ H0 Htr) as [_ [_ [Ha Hae]]].
  destruct (SendBatch_outcome t dms w Hp) as [_ [Hpb Hfin]].
  destruct (respond_ok t dms entries resp w2) as [Et Eo].
  rewrite Ha, Et. rewrite Hae, Et in He. rewrite Hout, Eo in Hpb.
  destruct (reconcile_after t dms entries resp w2 Hpb He) as [H1 [H2 _]].
  split; [exact H1|]. rewrite Hfin, Hout, Eo, H2. reflexivity.
Qed.

(** C5: when the backend answers without a transport error and a
    metrics sink is configured, the failure counter is emitted exactly
    when the reported failure count is positive, once, with that count
    as its value and with the configured tags. *)
Theorem failure_count_metric t dms w ms resp :
  MetricService (opts t) = Some ms ->
  In (Some resp, None) (backend_rets (trace_of (SendBatch t dms w))) ->
  only CountMetric (trace_of (SendBatch t dms w)) =
    if 0 <? messaging.FailureCount resp
    then [EvCount "firebase.message.sendBatch.failure"
            (messaging.FailureCount resp) (Tags (opts t))]
    else [].
Proof.
  intros Hms Hin.
  destruct (backend_answer t dms w _ Hin)
    as [entries [w2 [tr0 [_ [H0 [_ [Htr _]]]]]]].
  destruct (answered_projections t dms w tr0 _ H0 Htr) as [_ [-> _]].
  destruct (respond_ok t dms entries resp w2) as [-> _].
  apply (reconcile_counts t dms entries resp w2 ms Hms).
Qed.

(** C6: when the backend call returns a transport error, no after-send
    hook is invoked and the failure counter is not emitted; with a
    logger configured the error is logged once at error severity, and
    with a metrics sink as well the call returns that error. *)
Theorem transport_error_returned t dms w o e :
  In (o, Some e) (backend_rets (trace_of (SendBatch t dms w))) ->
  after_sends (trace_of (SendBatch t dms w)) = [] /\
  only CountMetric (trace_of (SendBatch t dms w)) = [] /\
  forall l, Logger (opts t) = Some l ->
    only Log (trace_of (SendBatch t dms w)) =
      [EvLogError "Error from response entity"
         [zap.String "from" "pubsub.firebase.sendBatch.response";
          zap.Error (Some e)]] /\
    forall ms, MetricService (opts t) = Some ms ->
      outcome_of (SendBatch t dms w) = Normal (Some e).
Proof.
  intros Hin.
  destruct (backend_answer t dms w _ Hin)
    as [entries [w2 [tr0 [_ [H0 [_ [Htr Hout]]]]]]].
  destruct (answered_projections t dms w tr0 _ H0 Htr)
    as [Hl [Hc [Ha _]]].
  rewrite Ha, Hc, Hl. rewrite respond_failed in *.
  split; [destruct (Logger (opts t)); reflexivity|].
  split; [destruct (Logger (opts t)); reflexivity|].
  intros l HL. rewrite HL in *. cbn zeta in *. autorewrite with run in *.
  split; [reflexivity|]. intros ms Hms.
  rewrite SendBatch_unfold, Hms. cbn zeta. autorewrite with run.
  rewrite Hout. reflexivity.
Qed.

Lemma filter_short_Exists {A} (p : A -> bool) (l : list A) :
  length (List.filter p l) <> length l -> Exists (fun a => p a = false) l.
Proof.
  induction l as [|a l IH]; simpl; [congruence|].
  destruct (p a) eqn:Ea; simpl; intros H.
  - apply Exists_cons_tl, IH. congruence.
  - apply Exists_cons_hd, Ea.
Qed.

(** C10: when the backend answers without error, the success count
    differs from the number of requests, no after-send hook returns an
    error and the call does not panic, the after-send hook of a request
    is invoked once when its entry signals success and it carries a
    hook, and not at all otherwise; in particular never for a failed
    entry and never twice.  For a well-formed answer a success count
    that differs from the number of requests means that some entry
    failed. *)
Theorem partial_success_after_send_once t dms w resp :
  let r := SendBatch t dms w in
  In (Some resp, None) (backend_rets (trace_of r)) ->
  messaging.SuccessCount resp <> Z.of_nat (length dms) ->
  after_errors (trace_of r) = [] ->
  is_panic (outcome_of r) = false ->
  after_sends (trace_of r) =
    successful_hooked 0 dms (messaging.Responses resp) /\
  (forall n dm re,
     dms !! n = Some dm -> messaging.Responses resp !! n = Some re ->
     invocations n (after_sends (trace_of r)) =
       if messaging.Success re && has_AfterSend dm then 1%nat else 0%nat) /\
  (well_formed resp (length dms) ->
   Exists (fun re => messaging.Success re = false) (messaging.Responses resp)).
Proof.
  intros r Hin Hne He Hp.
  destruct (after_sends_of_run t dms w resp Hin He Hp) as [Ha _].
  fold r in Ha. apply Z.eqb_neq in Hne. rewrite Hne, app_nil_r in Ha.
  split; [exact Ha|]. split.
  - intros n dm re Hn Hre. rewrite Ha.
    apply (successful_hooked_count dms 0 n dm _ re Hn Hre).
  - intros [Hlen [Hsc _]]. apply Z.eqb_neq in Hne.
    apply filter_short_Exists. intros Heq. apply Hne.
    rewrite Hsc, Heq, Hlen. reflexivity.
Qed.

(** C2: on a full success the code runs the second pass as well: when
    the success count equals the number of requests, every request that
    carries an after-send hook and whose entry signals success has its
    hook invoked twice, not once. *)
Theorem full_success_after_send_twice t dms w resp :
  let r := SendBatch t dms w in
  In (Some resp, None) (backend_rets (trace_of r)) ->
  messaging.SuccessCount resp = Z.of_nat (length dms) ->
  after_errors (trace_of r) = [] ->
  is_panic (outcome_of r) = false ->
  forall n dm re,
    dms !! n = Some dm -> messaging.Responses resp !! n = Some re ->
    messaging.Success re = true -> has_AfterSend dm = true ->
    invocations n (after_sends (trace_of r)) = 2%nat.
Proof.
  intros r Hin Heq He Hp n dm re Hn Hre Hs Hh.
  destruct (after_sends_of_run t dms w resp Hin He Hp) as [Ha _].
  fold r in Ha. apply Z.eqb_eq in Heq. rewrite Heq in Ha. rewrite Ha.
  unfold invocations. rewrite count_occ_app.
  fold (invocations n (successful_hooked 0 dms (messaging.Responses resp))).
  fold (invocations n (positions has_AfterSend 0 dms)).
  pose proof (successful_hooked_count dms 0 n dm _ re Hn Hre) as H1.
  pose proof (positions_count has_AfterSend dms 0 n dm Hn) as H2.
  change (0 + n)%nat with n in H1, H2.
  rewrite H1, H2, Hs, Hh. reflexivity.
Qed.

(** ** Dry run *)

Lemma bind_ext {A B} (m : run W Message A) (k k' : A -> run W Message B) w :
  (forall a w', k a w' = k' a w') -> bind m k w = bind m k' w.
Proof.
  intros H. unfold bind. destruct (m w) as [[[a|e|p] w1] t1]; trivial.
  now rewrite H.
Qed.

Lemma reconcile_loop_mode b c t entries dms : forall n responses w,
  reconcile_loop (with_mode b c t) entries n dms responses w =
  reconcile_loop t entries n dms responses w.
Proof.
  induction dms as [|dm rest IH]; intros n responses w; [reflexivity|].
  simpl. apply bind_ext. intros a w'. apply IH.
Qed.

(** What follows the backend call reads the options only for the
    sink, the tags and the logger. *)
Lemma respond_mode b c t dms entries r w :
  respond (with_mode b c t) dms entries r w = respond t dms entries r w.
Proof.
  unfold respond. destruct (snd r); [reflexivity|].
  apply bind_ext. intros resp w'. unfold reconcile.
  apply bind_ext. intros _ w''.
  unfold bind. rewrite reconcile_loop_mode. reflexivity.
Qed.

Lemma swap_event_id ss tr :
  ~ In Backend ss -> Forall (fun ev => In (sort_of ev) ss) tr ->
  map swap_event tr = tr.
Proof.
  intros Hs. induction 1 as [|ev tr Hev _ IH]; [reflexivity|].
  simpl. rewrite IH. destruct ev; simpl in *; trivial; contradiction.
Qed.

Lemma not_backend_not_live ss tr :
  ~ In Backend ss -> Forall (fun ev => In (sort_of ev) ss) tr ->
  Forall (fun ev => is_live ev = false) tr /\
  Forall (fun ev => is_dry ev = false) tr.
Proof.
  intros Hs. induction 1 as [|ev tr Hev _ [IH1 IH2]];
    [split; constructor|].
  split; constructor; trivial; destruct ev; simpl in *; trivial;
    contradiction.
Qed.

Lemma send_mode (dry : bool) c t entries w :
  send (with_mode dry c t) entries w =
    let a := (if dry then messaging.SendAllDryRun c
              else messaging.SendAll c) entries w in
    (Normal (fst a), snd a,
     [if dry then EvSendAllDryRun entries (fst a)
      else EvSendAll entries (fst a)]).
Proof.
  unfold send, call. simpl. destruct dry.
  - destruct (messaging.SendAllDryRun c entries w); reflexivity.
  - destruct (messaging.SendAll c entries w); reflexivity.
Qed.

(** The body of a call in either mode: the first loop, one call of the
    entry point of that mode, and the same continuation. *)
Lemma body_mode (dry : bool) c t dms w :
  let d := decode_loop 0 dms [] w in
  SendBatch_body (with_mode dry c t) dms w =
    match outcome_of d with
    | Normal entries =>
        let a := (if dry then messaging.SendAllDryRun c
                  else messaging.SendAll c) entries (world_of d) in
        let r := respond t dms entries (fst a) (snd a) in
        (outcome_of r, world_of r,
         trace_of d ++
         (if dry then EvSendAllDryRun entries (fst a)
          else EvSendAll entries (fst a)) :: trace_of r)
    | Returned e => (Returned e, world_of d, trace_of d)
    | Panicked p => (Panicked p, world_of d, trace_of d)
    end.
Proof.
  intros d. rewrite body_run. fold d. cbn zeta.
  destruct (outcome_of d) as [entries|e|p]; trivial.
  unfold submit. rewrite bind_run, send_mode. cbn zeta.
  autorewrite with run. cbn iota. rewrite respond_mode. reflexivity.
Qed.


Lemma with_mode_same t : with_mode (DryRun (opts t)) (client t) t = t.
Proof. destruct t as [c [dry bo ms tags lg]]. reflexivity. Qed.

(** ** Nil collaborators *)

Lemma is_panic_finish o : is_panic (finish o) = is_panic o.
Proof. destruct o; reflexivity. Qed.

(** Without a logger, a turn on a failed entry that carries an error
    panics. *)
Lemma reconcile_entry_nil_logger t entries n dm
    (responses : list messaging.SendResponse) w responses' re :
  Logger (opts t) = None ->
  outcome_of (reconcile_entry t entries n dm responses w) = Normal responses' ->
  responses !! n = Some re ->
  messaging.Success re = false ->
  messaging.Error re = None.
Proof. intros HL Ho Hre Hs. run_cases; congruence. Qed.

Lemma reconcile_loop_nil_logger t entries dms :
  forall n (responses : list messaging.SendResponse) w responses',
  Logger (opts t) = None ->
  outcome_of (reconcile_loop t entries n dms responses w) = Normal responses' ->
  forall k dm re,
    dms !! k = Some dm -> responses !! (n + k)%nat = Some re ->
    messaging.Success re = false ->
    messaging.Error re = None.
Proof.
  induction dms as [|d rest IH]; intros n responses w responses' HL Ho k dm re
    Hk Hre Hs; [discriminate|].
  simpl in Ho. rewrite bind_outcome in Ho.
  destruct (outcome_of (reconcile_entry t entries n d responses w))
    as [responses1|e|p] eqn:Ho1; try discriminate.
  destruct k as [|k]; simpl in Hk.
  - rewrite Nat.add_0_r in Hre.
    eapply reconcile_entry_nil_logger; eassumption.
  - destruct (reconcile_entry_normal _ _ _ _ _ _ _ Ho1) as [_ Hsame].
    replace (n + S k)%nat with (S n + k)%nat in Hre by lia.
    eapply (IH (S n) responses1 _ responses' HL Ho k dm re Hk); trivial.
    rewrite Hsame by lia. exact Hre.
Qed.

(** With a logger, a turn inside the responses and the entries does not
    panic. *)
Lemma reconcile_entry_safe t entries n dm
    (responses : list messaging.SendResponse) w l :
  Logger (opts t) = Some l ->
  (n < length responses)%nat -> (n < length entries)%nat ->
  is_panic (outcome_of (reconcile_entry t entries n dm responses w)) = false.
Proof.
  intros HL Hr He.
  apply lookup_lt_is_Some in He as [entry He].
  pose proof (fun x =>
    proj2 (lookup_lt_is_Some (<[n := x]> responses) n)
      (eq_ind_r (fun k => (n < k)%nat) Hr (length_insert responses n x)))
    as Hins.
  apply lookup_lt_is_Some in Hr as [re Hr].
  run_cases; trivial;
    match goal with
    | H : <[n := ?x]> responses !! n = None |- _ =>
        destruct (Hins x) as [? ?]; congruence
    end.
Qed.

Lemma reconcile_loop_safe t entries dms l :
  forall n (responses : list messaging.SendResponse) w,
  Logger (opts t) = Some l ->
  (n + length dms <= length responses)%nat ->
  (n + length dms <= length entries)%nat ->
  is_panic (outcome_of (reconcile_loop t entries n dms responses w)) = false /\
  forall responses',
    outcome_of (reconcile_loop t entries n dms responses w) = Normal responses' ->
    length responses' = length responses.
Proof.
  induction dms as [|dm rest IH]; intros n responses w HL Hr He.
  - split; [reflexivity|]. intros responses' [= <-]. reflexivity.
  - simpl length in *. simpl reconcile_loop. rewrite bind_outcome.
    pose proof (reconcile_entry_safe t entries n dm responses w l HL
                  ltac:(lia) ltac:(lia)) as Hp.
    destruct (outcome_of (reconcile_entry t entries n dm responses w))
      as [responses1|e|p] eqn:Ho1; [|split; [reflexivity | discriminate]
                                    |discriminate].
    destruct (reconcile_entry_normal _ _ _ _ _ _ _ Ho1) as [Hlen _].
    destruct (IH (S n) responses1
                (world_of (reconcile_entry t entries n dm responses w)) HL)
      as [Hp' Hl']; [lia..|].
    split; [exact Hp'|]. intros responses' Ho. rewrite (Hl' _ Ho). exact Hlen.
Qed.

Lemma success_loop_safe dms :
  forall n (responses : list messaging.SendResponse) w,
  (n + length dms <= length responses)%nat ->
  is_panic (outcome_of (success_loop n dms responses w)) = false.
Proof.
  induction dms as [|dm rest IH]; intros n responses w Hr; [reflexivity|].
  simpl length in *. simpl success_loop. rewrite bind_outcome.
  destruct (driver.AfterSend dm) as [hook|].
  - rewrite call_AfterSend_run.
    destruct (lookup_lt_is_Some_2 responses n ltac:(lia)) as [re ->].
    cbn zeta. autorewrite with run.
    destruct (snd (fst (hook re w))); [reflexivity|].
    apply IH. rewrite length_insert. lia.
  - unfold ret. autorewrite with run. apply IH. lia.
Qed.

Lemma reconcile_safe t dms entries resp w ms l :
  MetricService (opts t) = Some ms -> Logger (opts t) = Some l ->
  (length dms <= length (messaging.Responses resp))%nat ->
  (length dms <= length entries)%nat ->
  is_panic (outcome_of (reconcile t dms entries resp w)) = false.
Proof.
  intros Hms HL Hr He. unfold reconcile.
  destruct (count_failures_run t resp w) as [_ [_ Hc]].
  destruct (Hc ms Hms) as [Ho _]. rewrite bind_outcome, Ho.
  rewrite bind_outcome.
  destruct (reconcile_loop_safe t entries dms l 0 (messaging.Responses resp)
              (world_of (count_failures t resp w)) HL Hr He) as [Hp Hlen].
  destruct (outcome_of (reconcile_loop _ _ _ _ _ _)) as [responses'|e|p];
    [|reflexivity|discriminate].
  specialize (Hlen responses' eq_refl).
  rewrite bind_outcome. unfold all_succeeded.
  destruct (_ =? _); [|reflexivity].
  pose proof (success_loop_safe dms 0 responses'
                (world_of (reconcile_loop t entries 0 dms
                   (messaging.Responses resp)
                   (world_of (count_failures t resp w))))
                ltac:(simpl; lia)) as Hs.
  destruct (outcome_of (success_loop _ _ _ _)); trivial.
Qed.

(** A call whose first loop ran to its end called the backend. *)
Lemma reached_backend t dms w entries :
  outcome_of (decode_loop 0 dms [] w) = Normal entries ->
  exists r, In r (backend_rets (trace_of (SendBatch t dms w))).
Proof.
  intros Ho. destruct (SendBatch_trace t dms w) as [tl [-> _]].
  rewrite body_run. cbn zeta. rewrite Ho. autorewrite with run.
  unfold submit. rewrite bind_trace.
  destruct (send_run t entries (world_of (decode_loop 0 dms [] w)))
    as [r [w2 [ev [-> [_ [Hr _]]]]]].
  autorewrite with run. exists r. rewrite !backend_rets_app, Hr.
  apply in_or_app. left. apply in_or_app. right.
  apply in_or_app. left. now left.
Qed.

(** C4: a topic opened with nil options has neither sink nor logger,
    and every call of SendBatch on it panics on the nil sink.  More
    generally a call panics whenever the sink is nil; with a nil logger
    it panics when the backend returns a transport error, and it cannot
    run to its end over a failed entry that carries an error.  With
    both configured, and a backend that answers with one entry per
    request, no call panics. *)
Theorem nil_collaborators_panic :
  (forall c dms w,
     outcome_of (SendBatch (openFCMTopic c None) dms w) =
       Panicked NilDereference) /\
  (forall t dms w,
     MetricService (opts t) = None ->
     outcome_of (SendBatch t dms w) = Panicked NilDereference) /\
  (forall t dms w o e,
     Logger (opts t) = None ->
     In (o, Some e) (backend_rets (trace_of (SendBatch t dms w))) ->
     outcome_of (SendBatch t dms w) = Panicked NilDereference) /\
  (forall t dms w resp,
     Logger (opts t) = None ->
     In (Some resp, None) (backend_rets (trace_of (SendBatch t dms w))) ->
     after_errors (trace_of (SendBatch t dms w)) = [] ->
     is_panic (outcome_of (SendBatch t dms w)) = false ->
     forall n dm re,
       dms !! n = Some dm -> messaging.Responses resp !! n = Some re ->
       messaging.Success re = false ->
       messaging.Error re = None) /\
  (forall t dms w ms l,
     MetricService (opts t) = Some ms ->
     Logger (opts t) = Some l ->
     (forall o, In (o, None) (backend_rets (trace_of (SendBatch t dms w))) ->
        exists resp,
          o = Some resp /\
          (length dms <= length (messaging.Responses resp))%nat) ->
     is_panic (outcome_of (SendBatch t dms w)) = false).
Proof.
  assert (Hsink : forall t dms w,
            MetricService (opts t) = None ->
            outcome_of (SendBatch t dms w) = Panicked NilDereference).
  { intros t dms w Hms. rewrite SendBatch_unfold, Hms. reflexivity. }
  split; [intros c dms w; apply Hsink; reflexivity|].
  split; [exact Hsink|].
  split; [|split].
  - intros t dms w o e HL Hin.
    destruct (backend_answer t dms w _ Hin)
      as [entries [w2 [tr0 [_ [_ [_ [_ Hout]]]]]]].
    rewrite respond_failed, HL in Hout. autorewrite with run in Hout.
    rewrite SendBatch_unfold. cbn zeta.
    destruct (MetricService (opts t)); autorewrite with run;
      [rewrite Hout|]; reflexivity.
  - intros t dms w resp HL Hin He Hp n dm re Hn Hre Hs.
    destruct (backend_answer t dms w _ Hin)
      as [entries [w2 [tr0 [_ [H0 [_ [Htr Hout]]]]]]].
    destruct (answered_projections t dms w tr0 _ H0 Htr) as [_ [_ [_ Hae]]].
    destruct (SendBatch_outcome t dms w Hp) as [_ [Hpb _]].
    destruct (respond_ok t dms entries resp w2) as [Et Eo].
    rewrite Hae, Et in He. rewrite Hout, Eo in Hpb.
    destruct (reconcile_after t dms entries resp w2 Hpb He)
      as [_ [_ [responses' Ho]]].
    eapply (reconcile_loop_nil_logger t entries dms 0 _ _ responses' HL Ho n);
      eassumption.
  - intros t dms w ms l Hms HL Hwf.
    rewrite SendBatch_unfold, Hms. cbn zeta. autorewrite with run.
    rewrite is_panic_finish.
    destruct (outcome_of (decode_loop 0 dms [] w)) as [entries|e|p] eqn:Hd.
    + destruct (reached_backend t dms w entries Hd) as [[o oe] Hin].
      destruct (backend_answer t dms w _ Hin)
        as [entries' [w2 [tr0 [Hlen [_ [_ [_ Hout]]]]]]].
      rewrite Hout. destruct oe as [e|].
      * rewrite respond_failed, HL. reflexivity.
      * destruct (Hwf o Hin) as [resp [-> Hr]].
        destruct (respond_ok t dms entries' resp w2) as [_ ->].
        apply (reconcile_safe t dms entries' resp w2 ms l Hms HL Hr).
        rewrite Hlen. reflexivity.
    + rewrite body_run. cbn zeta. rewrite Hd. reflexivity.
    + pose proof (decode_loop_no_panic dms 0 [] w) as Hnp.
      rewrite Hd in Hnp. discriminate.
Qed.

(** ** The escape hatch: As and the hook accessors *)

(** X1: As on a pointer to a client variable answers true and leaves the
    client the topic was opened with in that variable, whatever the
    variable held and whatever options the topic was opened with. *)
Theorem As_recovers_client c o p :
  As (@openFCMTopic W Message c o) (ClientTarget (Some p)) =
    (inr true, ClientTarget (Some (Some c))).
Proof. destruct o; reflexivity. Qed.

(** X2: As answers true exactly for a non-nil pointer to a client
    variable; it panics exactly for a nil such pointer; in every other
    case it answers false, and whenever it does not answer true the
    target is left as it was. *)
Theorem As_accepts_only_client_targets t (i : any W Message) :
  (fst (As t i) = inr true <-> exists p, i = ClientTarget (Some p)) /\
  (fst (As t i) = inl NilDereference <-> i = ClientTarget None) /\
  (fst (As t i) <> inr true -> snd (As t i) = i) /\
  (fst (As t i) = inr false <->
   forall p, i <> ClientTarget p).
Proof.
  destruct i as [[p|]|p|p|s]; simpl; repeat split;
    try discriminate; try congruence; eauto;
    try (intros [p' H]; discriminate);
    try (intros H; exfalso; eapply H; reflexivity).
Qed.

(** X3: a hook accessor hands out its own object and nothing else: the
    before-send accessor accepts only a pointer to a message variable and
    stores the entry there, the after-send accessor accepts only a
    pointer to a response variable and stores entry [n] there; a target
    one of them accepts is refused by the other and by As, and neither
    accepts a pointer to a client variable. *)
Theorem accessors_are_exclusive t entry
    (responses : list messaging.SendResponse) n (i : any W Message) :
  (fst (asFunc_BeforeSend entry i) = inr true ->
   snd (asFunc_BeforeSend entry i) = MessageTarget (Some (Some entry)) /\
   fst (As t i) = inr false /\
   fst (asFunc_AfterSend responses n i) = inr false) /\
  (fst (asFunc_AfterSend responses n i) = inr true ->
   (exists r, responses !! n = Some r /\
              snd (asFunc_AfterSend responses n i) =
                ResponseTarget (Some (Some r))) /\
   fst (As t i) = inr false /\
   fst (asFunc_BeforeSend entry i) = inr false) /\
  (fst (As t i) = inr true ->
   fst (asFunc_BeforeSend entry i) = inr false /\
   fst (asFunc_AfterSend responses n i) = inr false).
Proof.
  destruct i as [[p|]|[p|]|[p|]|s]; simpl;
    try destruct (responses !! n) as [r|]; simpl;
    repeat split; try discriminate; eauto.
Qed.

(** ** More on the first loop *)

(** A first loop that runs to its end has decoded every payload, has
    met no hook error, and has appended one message per request; the
    message of a request without a hook is its decoded payload. *)
Lemma decode_loop_normal dms : forall n entries w entries',
  outcome_of (decode_loop n dms entries w) = Normal entries' ->
  Forall (fun dm => decodes dm = true) dms /\
  before_errors (trace_of (decode_loop n dms entries w)) = [] /\
  exists new,
    entries' = entries ++ new /\ length new = length dms /\
    forall k dm, dms !! k = Some dm -> driver.BeforeSend dm = None ->
      new !! k = Some (fst (UnmarshalJSON zero_Message (driver.Body dm))).
Proof.
  induction dms as [|dm rest IH]; intros n entries w entries' Ho.
  - injection Ho as <-. split; [constructor|]. split; [reflexivity|].
    exists []. rewrite app_nil_r. repeat split. intros k dm Hk. discriminate.
  - rewrite decode_loop_step in *.
    destruct (UnmarshalJSON zero_Message (driver.Body dm)) as [m [e|]] eqn:Hu;
      [discriminate|].
    assert (Hdm : decodes dm = true) by (unfold decodes; now rewrite Hu).
    destruct (driver.BeforeSend dm) as [hook|] eqn:Hh.
    + destruct (hook m w) as [[m' [e|]] w1]; [discriminate|].
      cbn zeta in *. autorewrite with run in *.
      destruct (IH _ _ _ _ Ho) as [Hd [He [new [-> [Hlen Hnew]]]]].
      split; [constructor; assumption|]. split; [exact He|].
      exists (m' :: new). rewrite <- app_assoc. split; [reflexivity|].
      split; [simpl; now rewrite Hlen|].
      intros [|k] dm0 Hk Hb; simpl in Hk.
      * injection Hk as <-. congruence.
      * apply (Hnew k dm0 Hk Hb).
    + destruct (IH _ _ _ _ Ho) as [Hd [He [new [-> [Hlen Hnew]]]]].
      split; [constructor; assumption|]. split; [exact He|].
      exists (m :: new). rewrite <- app_assoc. split; [reflexivity|].
      split; [simpl; now rewrite Hlen|].
      intros [|k] dm0 Hk Hb; simpl in Hk.
      * injection Hk as <-. now rewrite Hu.
      * apply (Hnew k dm0 Hk Hb).
Qed.

(** Every before-send hook the loop invoked belongs to a request of the
    batch and was handed the decoded payload of that request. *)
Lemma decode_loop_handed dms : forall n entries w i m e,
  In (EvBeforeSend i m e) (trace_of (decode_loop n dms entries w)) ->
  exists k dm hook,
    i = (n + k)%nat /\ dms !! k = Some dm /\
    driver.BeforeSend dm = Some hook /\
    UnmarshalJSON zero_Message (driver.Body dm) = (m, None).
Proof.
  induction dms as [|dm rest IH]; intros n entries w i m e Hin; [destruct Hin|].
  rewrite decode_loop_step in Hin.
  destruct (UnmarshalJSON zero_Message (driver.Body dm)) as [m0 [e0|]] eqn:Hu;
    [destruct Hin|].
  assert (Hrest : forall entries1 w1,
            In (EvBeforeSend i m e)
               (trace_of (decode_loop (S n) rest entries1 w1)) ->
            exists k dm1 hook,
              i = (n + k)%nat /\ (dm :: rest) !! k = Some dm1 /\
              driver.BeforeSend dm1 = Some hook /\
              UnmarshalJSON zero_Message (driver.Body dm1) = (m, None)).
  { intros entries1 w1 H. destruct (IH _ _ _ _ _ _ H) as [k [dm1 [hook H1]]].
    exists (S k), dm1, hook. destruct H1 as [-> H1]. split; [lia | exact H1]. }
  destruct (driver.BeforeSend dm) as [hook|] eqn:Hh; [|eapply Hrest, Hin].
  destruct (hook m0 w) as [[m' [e1|]] w1].
  - destruct Hin as [[= <- <- <-]|[]].
    exists 0%nat, dm, hook. rewrite Nat.add_0_r. repeat split; assumption.
  - cbn zeta in Hin. autorewrite with run in Hin.
    destruct Hin as [[= <- <- <-]|Hin]; [|eapply Hrest, Hin].
    exists 0%nat, dm, hook. rewrite Nat.add_0_r. repeat split; assumption.
Qed.

(** A before-send hook that returns an error ends the loop: it is the
    only error of the loop and the loop returns it. *)
Lemma decode_loop_error dms : forall n entries w e,
  In e (before_errors (trace_of (decode_loop n dms entries w))) ->
  before_errors (trace_of (decode_loop n dms entries w)) = [e] /\
  outcome_of (decode_loop n dms entries w) = Returned (Some e).
Proof.
  induction dms as [|dm rest IH]; intros n entries w e Hin; [destruct Hin|].
  rewrite decode_loop_step in *.
  destruct (UnmarshalJSON zero_Message (driver.Body dm)) as [m0 [e0|]];
    [destruct Hin|].
  destruct (driver.BeforeSend dm) as [hook|]; [|apply IH, Hin].
  destruct (hook m0 w) as [[m' [e1|]] w1].
  - destruct Hin as [<-|[]]. split; reflexivity.
  - cbn zeta in *. autorewrite with run in *. apply IH, Hin.
Qed.

(** ** The shape of a whole call *)

Lemma send_shape t entries w :
  exists r w2,
    send t entries w =
      (Normal r, w2,
       [if DryRun (opts t) then EvSendAllDryRun entries r
        else EvSendAll entries r]).
Proof.
  unfold send, call. destruct (DryRun (opts t)).
  - destruct (messaging.SendAllDryRun (client t) entries w) as [r w2]. eauto.
  - destruct (messaging.SendAll (client t) entries w) as [r w2]. eauto.
Qed.

(** A call is its first loop, then, when that loop ran to its end, one
    backend call and what follows it, then the deferred timing. *)
Lemma SendBatch_shape t dms w :
  exists tl,
    (tl = [] \/
     exists d, tl = [EvTiming "firebase.messagine.sendBatch.latency" d
                       (Tags (opts t))]) /\
    match outcome_of (decode_loop 0 dms [] w) with
    | Normal entries =>
        exists r w2,
          trace_of (SendBatch t dms w) =
            trace_of (decode_loop 0 dms [] w) ++
            (if DryRun (opts t) then EvSendAllDryRun entries r
             else EvSendAll entries r)
            :: trace_of (respond t dms entries r w2) ++ tl /\
          outcome_of (SendBatch_body t dms w) =
            outcome_of (respond t dms entries r w2)
    | Returned e =>
        trace_of (SendBatch t dms w) = trace_of (decode_loop 0 dms [] w) ++ tl /\
        outcome_of (SendBatch_body t dms w) = Returned e
    | Panicked _ => False
    end.
Proof.
  assert (Htl : exists tl,
            (tl = [] \/
             exists d, tl = [EvTiming "firebase.messagine.sendBatch.latency" d
                               (Tags (opts t))]) /\
            trace_of (SendBatch t dms w) =
              trace_of (SendBatch_body t dms w) ++ tl).
  { rewrite SendBatch_unfold. cbn zeta.
    destruct (MetricService (opts t)) as [ms|]; autorewrite with run.
    - eexists. split; [right; eexists; reflexivity | reflexivity].
    - exists []. split; [now left | now rewrite app_nil_r]. }
  destruct Htl as [tl [Htl ->]]. exists tl. split; [exact Htl|].
  pose proof (decode_loop_no_panic dms 0 [] w) as Hnp.
  rewrite body_run. cbn zeta.
  destruct (outcome_of (decode_loop 0 dms [] w)) as [entries|e|p];
    [|split; reflexivity|discriminate].
  unfold submit. rewrite bind_trace, bind_outcome.
  destruct (send_shape t entries (world_of (decode_loop 0 dms [] w)))
    as [r [w2 ->]].
  autorewrite with run. exists r, w2. split; [|reflexivity].
  now rewrite <- !app_assoc.
Qed.

Lemma In_sorts ss tr (ev : event Message) :
  Forall (fun ev => In (sort_of ev) ss) tr -> In ev tr -> In (sort_of ev) ss.
Proof. intros H Hin. rewrite List.Forall_forall in H. now apply H. Qed.

Lemma timing_tail_sorts t (tl : trace) :
  (tl = [] \/
   exists d, tl = [EvTiming "firebase.messagine.sendBatch.latency" d
                     (Tags (opts t))]) ->
  Forall (fun ev => In (sort_of ev) [TimingMetric]) tl.
Proof. intros [->|[d ->]]; repeat constructor. Qed.

Lemma backend_entries_app tr1 tr2 :
  backend_entries (tr1 ++ tr2) = backend_entries tr1 ++ backend_entries tr2.
Proof. apply omap_app. Qed.

Lemma backend_entries_absent ss tr :
  ~ In Backend ss -> Forall (fun ev => In (sort_of ev) ss) tr ->
  backend_entries tr = [].
Proof.
  intros Hs. induction 1 as [|ev tr Hev _ IH]; [reflexivity|].
  destruct ev; simpl in *; try assumption; contradiction.
Qed.

(** The batches handed to the backend in a call: the result of the
    first loop when it ran to its end, and nothing otherwise. *)
Lemma backend_entries_of_run t dms w :
  backend_entries (trace_of (SendBatch t dms w)) =
    match outcome_of (decode_loop 0 dms [] w) with
    | Normal entries => [entries]
    | _ => []
    end.
Proof.
  destruct (SendBatch_shape t dms w) as [tl [Htl H]].
  apply timing_tail_sorts in Htl.
  pose proof (emits_decode_loop [Before] dms 0 [] (or_introl eq_refl) w) as Hd.
  assert (Hdb : backend_entries (trace_of (decode_loop 0 dms [] w)) = []).
  { eapply backend_entries_absent; [|exact Hd]. simpl. intuition discriminate. }
  assert (Htb : backend_entries tl = []).
  { eapply backend_entries_absent; [|exact Htl]. simpl. intuition discriminate. }
  destruct (outcome_of (decode_loop 0 dms [] w)) as [entries|e|p]; [| |easy].
  - destruct H as [r [w2 [-> _]]].
    rewrite backend_entries_app, Hdb. simpl app.
    change (?x :: ?l ++ tl) with ([x] ++ l ++ tl).
    rewrite !backend_entries_app, Htb, app_nil_r.
    rewrite (backend_entries_absent [CountMetric; After; Log]
               (trace_of (respond t dms entries r w2)));
      [|simpl; intuition discriminate | apply emits_respond; in_sorts].
    destruct (DryRun (opts t)); reflexivity.
  - destruct H as [-> _]. now rewrite backend_entries_app, Hdb, Htb.
Qed.

(** X5: a call reaches the backend at most once, and exactly once when
    every payload decodes and no before-send hook returns an error; in
    every other case the backend is not called at all. *)
Theorem backend_called_once_iff t dms w :
  (length (backend_entries (trace_of (SendBatch t dms w))) <= 1)%nat /\
  (length (backend_entries (trace_of (SendBatch t dms w))) = 1%nat <->
   Forall (fun dm => decodes dm = true) dms /\
   before_errors (trace_of (SendBatch t dms w)) = []).
Proof.
  rewrite backend_entries_of_run.
  destruct (SendBatch_before t dms w) as [_ ->].
  destruct (outcome_of (decode_loop 0 dms [] w)) as [entries|e|p] eqn:Ho.
  - destruct (decode_loop_normal _ _ _ _ _ Ho) as [Hd [He _]].
    split; [simpl; lia|]. split; [intros _; now split | reflexivity].
  - split; [simpl; lia|]. split; [discriminate|]. intros [Hd He].
    destruct (decode_loop_complete dms 0 [] w Hd He) as [_ [en [Hn _]]].
    congruence.
  - split; [simpl; lia|]. split; [discriminate|]. intros [Hd He].
    destruct (decode_loop_complete dms 0 [] w Hd He) as [_ [en [Hn _]]].
    congruence.
Qed.

(** X6: the batch handed to the backend has one message per request, in
    request order, and the message of a request without a before-send
    hook is its decoded payload. *)
Theorem submitted_entries_align t dms w entries :
  In entries (backend_entries (trace_of (SendBatch t dms w))) ->
  length entries = length dms /\
  forall n dm,
    dms !! n = Some dm -> driver.BeforeSend dm = None ->
    entries !! n = Some (fst (UnmarshalJSON zero_Message (driver.Body dm))).
Proof.
  rewrite backend_entries_of_run.
  destruct (outcome_of (decode_loop 0 dms [] w)) as [entries'|e|p] eqn:Ho;
    [|intros []..].
  intros [<-|[]].
  destruct (decode_loop_normal _ _ _ _ _ Ho) as [_ [_ [new [-> [Hlen Hnew]]]]].
  split; [exact Hlen|]. exact Hnew.
Qed.

(** X7: every before-send hook a call invokes belongs to a request of
    the batch that carries one, and is handed the decoded payload of that
    very request. *)
Theorem before_send_handed_own_payload t dms w n m e :
  In (EvBeforeSend n m e) (trace_of (SendBatch t dms w)) ->
  exists dm hook,
    dms !! n = Some dm /\ driver.BeforeSend dm = Some hook /\
    UnmarshalJSON zero_Message (driver.Body dm) = (m, None).
Proof.
  intros Hin.
  assert (Hd : In (EvBeforeSend n m e) (trace_of (decode_loop 0 dms [] w))).
  { destruct (SendBatch_shape t dms w) as [tl [Htl H]].
    apply timing_tail_sorts in Htl.
    assert (Hnot : forall ss tr, ~ In Before ss ->
              Forall (fun ev => In (sort_of ev) ss) tr ->
              ~ In (EvBeforeSend n m e) tr).
    { intros ss tr Hs Hf Hi. apply Hs. apply (In_sorts ss tr _ Hf Hi). }
    destruct (outcome_of (decode_loop 0 dms [] w)) as [entries|e0|p]; [| |easy].
    - destruct H as [r [w2 [E _]]]. rewrite E in Hin.
      apply in_app_or in Hin as [Hin|Hin]; [exact Hin|].
      destruct Hin as [Hin|Hin]; [destruct (DryRun (opts t)); discriminate|].
      apply in_app_or in Hin as [Hin|Hin]; exfalso.
      + eapply (Hnot [CountMetric; After; Log]); [| |exact Hin];
          [simpl; intuition discriminate | apply emits_respond; in_sorts].
      + eapply (Hnot [TimingMetric]); [| |exact Hin];
          [simpl; intuition discriminate | exact Htl].
    - destruct H as [E _]. rewrite E in Hin.
      apply in_app_or in Hin as [Hin|Hin]; [exact Hin|]. exfalso.
      eapply (Hnot [TimingMetric]); [| |exact Hin];
        [simpl; intuition discriminate | exact Htl]. }
  destruct (decode_loop_handed dms 0 [] w n m e Hd) as [k [dm [hook [-> H]]]].
  exists dm, hook. exact H.
Qed.

(** X8: a before-send hook that returns an error ends the call: it is
    the only hook error of the call, the backend is not called, no
    after-send hook runs, nothing is logged or counted, and with a
    metrics sink configured the call returns that error. *)
Theorem before_send_error_aborts t dms w e :
  In e (before_errors (trace_of (SendBatch t dms w))) ->
  before_errors (trace_of (SendBatch t dms w)) = [e] /\
  Forall (fun ev => In (sort_of ev) [Before; TimingMetric])
    (trace_of (SendBatch t dms w)) /\
  backend_entries (trace_of (SendBatch t dms w)) = [] /\
  after_sends (trace_of (SendBatch t dms w)) = [] /\
  forall ms, MetricService (opts t) = Some ms ->
    outcome_of (SendBatch t dms w) = Normal (Some e).
Proof.
  intros Hin. destruct (SendBatch_before t dms w) as [_ Hbe].
  rewrite Hbe in *.
  destruct (decode_loop_error dms 0 [] w e Hin) as [He Ho].
  assert (Hstop : forall entries,
             outcome_of (decode_loop 0 dms [] w) <> Normal entries)
    by (intros entries; rewrite Ho; discriminate).
  destruct (body_stopped t dms w Hstop) as [Htr Hfin].
  assert (Hall : Forall (fun ev => In (sort_of ev) [Before; TimingMetric])
                   (trace_of (SendBatch t dms w))).
  { destruct (SendBatch_trace t dms w) as [tl [-> Htl]].
    rewrite Htr. apply Forall_app. split.
    - eapply Forall_impl; [apply (emits_decode_loop [Before]); in_sorts|].
      simpl. tauto.
    - eapply Forall_impl; [exact Htl|]. simpl. tauto. }
  split; [exact He|]. split; [exact Hall|].
  split; [eapply backend_entries_absent; [|exact Hall];
          simpl; intuition discriminate|].
  split; [eapply after_absent; [|exact Hall]; simpl; intuition discriminate|].
  intros ms Hms. rewrite SendBatch_unfold, Hms. cbn zeta.
  autorewrite with run. rewrite Hfin, Ho. reflexivity.
Qed.

(** ** After-send hook errors *)

Local Abbreviation stops_on_error := (@stops_on_error W Message _).

Lemma stops_absent {A} ss (m : run W Message A) :
  ~ In After ss -> emits ss m -> stops_on_error m.
Proof.
  intros Hs Hm w e Hin.
  destruct (after_absent ss _ Hs (Hm w)) as [_ H]. rewrite H in Hin.
  destruct Hin.
Qed.

Lemma stops_bind {A B} (m : run W Message A) (k : A -> run W Message B) :
  stops_on_error m -> (forall a, stops_on_error (k a)) ->
  stops_on_error (bind m k).
Proof.
  intros Hm Hk w e. rewrite bind_trace, bind_outcome, after_errors_app.
  specialize (Hm w).
  destruct (outcome_of (m w)) as [a|e0|p] eqn:Ho.
  - destruct (after_errors (trace_of (m w))) as [|e1 l] eqn:He.
    + simpl. apply Hk.
    + destruct (Hm e1 (or_introl eq_refl)) as [_ H]. discriminate.
  - simpl. rewrite app_nil_r. intros Hin.
    destruct (Hm e Hin) as [H1 H2]. split; [exact H1 | congruence].
  - simpl. rewrite app_nil_r. intros Hin.
    destruct (Hm e Hin) as [_ H2]. discriminate.
Qed.

Lemma stops_call_AfterSend n hook (responses : list messaging.SendResponse) :
  stops_on_error (call_AfterSend n hook responses).
Proof.
  intros w e. rewrite call_AfterSend_run.
  destruct (responses !! n) as [re|]; [|intros []].
  cbn zeta. autorewrite with run. simpl.
  destruct (snd (fst (hook re w))) as [e0|]; simpl; [|intros []].
  intros [<-|[]]. split; reflexivity.
Qed.

Lemma stops_reconcile_entry t entries n dm
    (responses : list messaging.SendResponse) :
  stops_on_error (reconcile_entry t entries n dm responses).
Proof.
  unfold reconcile_entry.
  apply stops_bind; [apply (stops_absent []), emits_index; simpl; tauto|].
  intros re. apply stops_bind.
  { destruct (messaging.Success re);
      [|apply (stops_absent []), emits_ret; simpl; tauto].
    destruct (driver.AfterSend dm);
      [apply stops_call_AfterSend
      |apply (stops_absent []), emits_ret; simpl; tauto]. }
  intros responses'.
  apply stops_bind; [apply (stops_absent []), emits_index; simpl; tauto|].
  intros re'. apply stops_bind.
  - apply (stops_absent [Log]); [simpl; intuition discriminate|].
    apply emits_log_entry. in_sorts.
  - intros _. apply (stops_absent []), emits_ret. simpl. tauto.
Qed.

Lemma stops_reconcile_loop t entries dms :
  forall n (responses : list messaging.SendResponse),
  stops_on_error (reconcile_loop t entries n dms responses).
Proof.
  induction dms as [|dm rest IH]; intros n responses; simpl.
  - apply (stops_absent []), emits_ret. simpl. tauto.
  - apply stops_bind; [apply stops_reconcile_entry|]. intros r. apply IH.
Qed.

Lemma stops_success_loop dms :
  forall n (responses : list messaging.SendResponse),
  stops_on_error (success_loop n dms responses).
Proof.
  induction dms as [|dm rest IH]; intros n responses; simpl.
  - apply (stops_absent []), emits_ret. simpl. tauto.
  - apply stops_bind; [|intros r; apply IH].
    destruct (driver.AfterSend dm);
      [apply stops_call_AfterSend
      |apply (stops_absent []), emits_ret; simpl; tauto].
Qed.

Lemma stops_respond t dms entries r :
  stops_on_error (respond t dms entries r).
Proof.
  unfold respond. destruct (snd r) as [e|].
  - apply (stops_absent [Log]); [simpl; intuition discriminate|].
    apply emits_bind; [apply emits_Logger_Error; in_sorts|].
    intros _. apply emits_return.
  - apply stops_bind; [apply (stops_absent []), emits_deref; simpl; tauto|].
    intros resp. unfold reconcile.
    apply stops_bind.
    { apply (stops_absent [CountMetric]); [simpl; intuition discriminate|].
      unfold count_failures.
      destruct (0 <? _); [apply emits_Count; in_sorts | apply emits_ret]. }
    intros _. apply stops_bind; [apply stops_reconcile_loop|].
    intros responses. apply stops_bind.
    + unfold all_succeeded.
      destruct (_ =? _);
        [apply stops_success_loop
        |apply (stops_absent []), emits_ret; simpl; tauto].
    + intros _. apply (stops_absent []), emits_return. simpl. tauto.
Qed.

(** The after-send side of a whole call is that of what follows the
    backend call. *)
Lemma SendBatch_after_errors t dms w :
  match outcome_of (decode_loop 0 dms [] w) with
  | Normal entries =>
      exists r w2,
        backend_rets (trace_of (SendBatch t dms w)) = [r] /\
        after_errors (trace_of (SendBatch t dms w)) =
          after_errors (trace_of (respond t dms entries r w2)) /\
        outcome_of (SendBatch_body t dms w) =
          outcome_of (respond t dms entries r w2)
  | Returned e =>
      backend_rets (trace_of (SendBatch t dms w)) = [] /\
      after_errors (trace_of (SendBatch t dms w)) = [] /\
      outcome_of (SendBatch_body t dms w) = Returned e
  | Panicked _ => False
  end.
Proof.
  destruct (SendBatch_shape t dms w) as [tl [Htl H]].
  apply timing_tail_sorts in Htl.
  pose proof (emits_decode_loop [Before] dms 0 [] (or_introl eq_refl) w) as Hd.
  destruct (after_absent [Before] _ ltac:(simpl; intuition discriminate) Hd)
    as [_ Hda].
  destruct (after_absent [TimingMetric] _
              ltac:(simpl; intuition discriminate) Htl) as [_ Hta].
  pose proof (backend_absent [Before] _
                ltac:(simpl; intuition discriminate) Hd) as Hdb.
  pose proof (backend_absent [TimingMetric] _
                ltac:(simpl; intuition discriminate) Htl) as Htb.
  destruct (outcome_of (decode_loop 0 dms [] w)) as [entries|e|p]; [| |easy].
  - destruct H as [r [w2 [-> Ho]]]. exists r, w2.
    change (?x :: ?l ++ tl) with ([x] ++ l ++ tl).
    rewrite !backend_rets_app, !after_errors_app, Hda, Hta, Hdb, Htb.
    rewrite (backend_absent [CountMetric; After; Log]
               (trace_of (respond t dms entries r w2)));
      [|simpl; intuition discriminate | apply emits_respond; in_sorts].
    rewrite !app_nil_r.
    split; [destruct (DryRun (opts t)); reflexivity|].
    split; [destruct (DryRun (opts t)); reflexivity | exact Ho].
  - destruct H as [-> Ho].
    rewrite backend_rets_app, after_errors_app, Hda, Hta, Hdb, Htb.
    repeat split. exact Ho.
Qed.

(** X9: an after-send hook that returns an error ends the call: it is
    the only hook error of the call (no before-send hook had failed),
    and with a metrics sink configured the call returns that error. *)
Theorem after_send_error_aborts t dms w e :
  In e (after_errors (trace_of (SendBatch t dms w))) ->
  after_errors (trace_of (SendBatch t dms w)) = [e] /\
  before_errors (trace_of (SendBatch t dms w)) = [] /\
  forall ms, MetricService (opts t) = Some ms ->
    outcome_of (SendBatch t dms w) = Normal (Some e).
Proof.
  intros Hin. pose proof (SendBatch_after_errors t dms w) as H.
  destruct (SendBatch_before t dms w) as [_ Hbe]. rewrite Hbe.
  destruct (outcome_of (decode_loop 0 dms [] w)) as [entries|e0|p] eqn:Hd;
    [| |easy].
  - destruct H as [r [w2 [_ [Hae Ho]]]]. rewrite Hae in *.
    destruct (stops_respond t dms entries r w2 e Hin) as [He Hr].
    destruct (decode_loop_normal _ _ _ _ _ Hd) as [_ [Hb _]].
    split; [exact He|]. split; [exact Hb|].
    intros ms Hms. rewrite SendBatch_unfold, Hms. cbn zeta.
    autorewrite with run. rewrite Ho, Hr. reflexivity.
  - destruct H as [_ [Hae _]]. rewrite Hae in Hin. destruct Hin.
Qed.

(** The first loop never returns nil: it returns a decode error or a
    hook error. *)
Lemma decode_loop_returned_some dms : forall n entries w e,
  outcome_of (decode_loop n dms entries w) = Returned e -> e <> None.
Proof.
  induction dms as [|dm rest IH]; intros n entries w e Hd; [discriminate|].
  rewrite decode_loop_step in Hd.
  destruct (UnmarshalJSON zero_Message (driver.Body dm)) as [m [e1|]];
    [injection Hd as <-; discriminate|].
  destruct (driver.BeforeSend dm) as [hook|]; [|eapply IH, Hd].
  destruct (hook m w) as [[m' [e1|]] w1];
    [injection Hd as <-; discriminate|].
  cbn zeta in Hd. autorewrite with run in Hd. eapply IH, Hd.
Qed.

(** X10: a call returns nil exactly when it did not panic, every payload
    decoded, no hook returned an error and the backend answered with a
    batch response and no error. *)
Theorem returns_nil_iff t dms w :
  outcome_of (SendBatch t dms w) = Normal None <->
  is_panic (outcome_of (SendBatch t dms w)) = false /\
  Forall (fun dm => decodes dm = true) dms /\
  before_errors (trace_of (SendBatch t dms w)) = [] /\
  after_errors (trace_of (SendBatch t dms w)) = [] /\
  exists resp,
    backend_rets (trace_of (SendBatch t dms w)) = [(Some resp, None)].
Proof.
  split.
  - intros Hnil.
    assert (Hp : is_panic (outcome_of (SendBatch t dms w)) = false)
      by (rewrite Hnil; reflexivity).
    destruct (SendBatch_outcome t dms w Hp) as [_ [Hpb Hfin]].
    rewrite Hnil in Hfin.
    pose proof (SendBatch_after_errors t dms w) as H.
    destruct (SendBatch_before t dms w) as [_ Hbe]. rewrite Hbe.
    split; [exact Hp|].
    destruct (outcome_of (decode_loop 0 dms [] w)) as [entries|e0|p] eqn:Hd;
      [| |easy].
    + destruct H as [r [w2 [Hr [Hae Ho]]]].
      destruct (decode_loop_normal _ _ _ _ _ Hd) as [Hdec [Hb _]].
      split; [exact Hdec|]. split; [exact Hb|].
      rewrite Ho in Hfin, Hpb. rewrite Hae, Hr.
      assert (Hnone : after_errors (trace_of (respond t dms entries r w2)) = []).
      { destruct (after_errors (trace_of (respond t dms entries r w2)))
          as [|e1 l] eqn:He; [reflexivity|].
        destruct (stops_respond t dms entries r w2 e1) as [_ Hret];
          [rewrite He; now left|].
        rewrite Hret in Hfin. discriminate. }
      split; [exact Hnone|].
      destruct r as [[resp|] [e|]].
      * rewrite respond_failed in Hfin.
        destruct (Logger (opts t)); discriminate.
      * eauto.
      * rewrite respond_failed in Hfin.
        destruct (Logger (opts t)); discriminate.
      * unfold respond in Hpb. simpl in Hpb. discriminate.
    + destruct H as [_ [_ Ho]]. rewrite Ho in Hfin.
      destruct e0; [discriminate|].
      destruct (decode_loop_returned_some dms 0 [] w None Hd eq_refl).
  - intros [Hp [_ [_ [He [resp Hr]]]]].
    apply (after_sends_of_run t dms w resp); trivial.
    rewrite Hr. now left.
Qed.

(** ** Which after-send hooks run, and on what *)

Lemma reconcile_entry_handed t entries n dm
    (responses : list messaging.SendResponse) w i r e :
  In (EvAfterSend i r e)
     (trace_of (reconcile_entry t entries n dm responses w)) ->
  i = n /\ responses !! n = Some r /\
  messaging.Success r = true /\ has_AfterSend dm = true.
Proof.
  intros H. run_cases; simpl in H; intuition; simplify_eq; intuition.
Qed.

Lemma reconcile_loop_handed t entries dms :
  forall n (responses : list messaging.SendResponse) w i r e,
  In (EvAfterSend i r e)
     (trace_of (reconcile_loop t entries n dms responses w)) ->
  exists k dm,
    i = (n + k)%nat /\ dms !! k = Some dm /\ has_AfterSend dm = true /\
    responses !! i = Some r /\ messaging.Success r = true.
Proof.
  induction dms as [|dm rest IH]; intros n responses w i r e Hin;
    [destruct Hin|].
  simpl in Hin. rewrite bind_trace in Hin.
  apply in_app_or in Hin as [Hin|Hin].
  - destruct (reconcile_entry_handed _ _ _ _ _ _ _ _ _ Hin)
      as [-> [Hr [Hs Hh]]].
    exists 0%nat, dm. rewrite Nat.add_0_r. repeat split; assumption.
  - destruct (outcome_of (reconcile_entry t entries n dm responses w))
      as [responses1|e0|p] eqn:Ho; [|destruct Hin..].
    destruct (reconcile_entry_normal _ _ _ _ _ _ _ Ho) as [_ Hsame].
    destruct (IH _ _ _ _ _ _ Hin) as [k [dm1 [-> [Hk [Hh [Hr Hs]]]]]].
    exists (S k), dm1. split; [lia|]. repeat split; trivial.
    rewrite <- Hsame by lia. exact Hr.
Qed.

Lemma success_loop_handed dms :
  forall n (responses : list messaging.SendResponse) w i r e,
  In (EvAfterSend i r e) (trace_of (success_loop n dms responses w)) ->
  exists k dm,
    i = (n + k)%nat /\ dms !! k = Some dm /\ has_AfterSend dm = true.
Proof.
  induction dms as [|dm rest IH]; intros n responses w i r e Hin;
    [destruct Hin|].
  simpl in Hin. rewrite bind_trace in Hin.
  assert (Hrest : forall responses1 w1,
            In (EvAfterSend i r e)
               (trace_of (success_loop (S n) rest responses1 w1)) ->
            exists k dm0,
              i = (n + k)%nat /\ (dm :: rest) !! k = Some dm0 /\
              has_AfterSend dm0 = true).
  { intros responses1 w1 H. destruct (IH _ _ _ _ _ _ H) as [k [dm1 [-> H1]]].
    exists (S k), dm1. split; [lia | exact H1]. }
  unfold has_AfterSend. 
  destruct (driver.AfterSend dm) as [hook|] eqn:Hh.
  - rewrite call_AfterSend_run in Hin.
    destruct (responses !! n) as [re|]; [|destruct Hin].
    cbn zeta in Hin. autorewrite with run in Hin.
    apply in_app_or in Hin as [[Hin|[]]|Hin].
    + injection Hin as <- _ _. exists 0%nat, dm. rewrite Nat.add_0_r.
      repeat split. unfold has_AfterSend. now rewrite Hh.
    + destruct (snd (fst (hook re w))); [destruct Hin|].
      eapply Hrest, Hin.
  - unfold ret in Hin. autorewrite with run in Hin. simpl in Hin.
    eapply Hrest, Hin.
Qed.

(** The hooks that what follows the backend call invokes: each belongs
    to a request that carries one; in the first pass each is handed the
    entry of its own position as the backend returned it, and that entry
    signals success. *)
Lemma respond_handed t dms entries r0 w i r e :
  In (EvAfterSend i r e) (trace_of (respond t dms entries r0 w)) ->
  (exists dm, dms !! i = Some dm /\ has_AfterSend dm = true) /\
  exists resp,
    r0 = (Some resp, None) /\
    (messaging.SuccessCount resp <> Z.of_nat (length dms) ->
     messaging.Responses resp !! i = Some r /\ messaging.Success r = true).
Proof.
  intros Hin. destruct r0 as [o [e0|]].
  - exfalso. rewrite respond_failed in Hin.
    destruct (Logger (opts t)); simpl in Hin; [|destruct Hin].
    destruct Hin as [Hin|[]]. discriminate.
  - destruct o as [resp|];
      [|unfold respond, deref, bind, raise in Hin; simpl in Hin;
        contradiction].
    rewrite (proj1 (respond_ok t dms entries resp w)) in Hin.
    unfold reconcile in Hin. rewrite bind_trace in Hin.
    apply in_app_or in Hin as [Hin|Hin].
    { exfalso.
      destruct (count_failures_run t resp w) as [_ [Hc _]].
      pose proof (In_sorts _ _ _ Hc Hin) as Hs. simpl in Hs.
      intuition discriminate. }
    destruct (outcome_of (count_failures t resp w)) as [[]|e1|p];
      [|simpl in Hin; contradiction..].
    rewrite bind_trace in Hin. apply in_app_or in Hin as [Hin|Hin].
    + destruct (reconcile_loop_handed _ _ _ _ _ _ _ _ _ Hin)
        as [k [dm [-> [Hk [Hh [Hr Hs]]]]]].
      split; [exists dm; split; assumption|].
      exists resp. split; [reflexivity|]. intros _. split; assumption.
    + destruct (outcome_of (reconcile_loop _ _ _ _ _ _)) as [rs|e1|p];
        [|simpl in Hin; contradiction..].
      rewrite bind_trace in Hin. unfold all_succeeded in Hin.
      destruct (messaging.SuccessCount resp =? Z.of_nat (length dms)) eqn:Hsc.
      * apply in_app_or in Hin as [Hin|Hin].
        -- destruct (success_loop_handed _ _ _ _ _ _ _ Hin)
             as [k [dm [-> [Hk Hh]]]].
           split; [exists dm; split; assumption|].
           exists resp. split; [reflexivity|].
           apply Z.eqb_eq in Hsc. intros Hne. contradiction.
        -- destruct (outcome_of (success_loop _ _ _ _)); simpl in Hin;
             contradiction.
      * unfold ret in Hin. autorewrite with run in Hin. simpl in Hin.
        contradiction.
Qed.

(** X12: an after-send hook is invoked only for a request of the batch
    that carries one, and only after a backend answer without error;
    when the success count differs from the number of requests it is
    handed the response entry of its own position, exactly as the backend
    returned it, and that entry signals success. *)
Theorem after_send_handed_own_entry t dms w n r e :
  In (EvAfterSend n r e) (trace_of (SendBatch t dms w)) ->
  (exists dm, dms !! n = Some dm /\ has_AfterSend dm = true) /\
  exists resp,
    backend_rets (trace_of (SendBatch t dms w)) = [(Some resp, None)] /\
    (messaging.SuccessCount resp <> Z.of_nat (length dms) ->
     messaging.Responses resp !! n = Some r /\ messaging.Success r = true).
Proof.
  intros Hin.
  destruct (SendBatch_shape t dms w) as [tl [Htl H]].
  apply timing_tail_sorts in Htl.
  pose proof (emits_decode_loop [Before] dms 0 [] (or_introl eq_refl) w) as Hd.
  pose proof (SendBatch_after_errors t dms w) as Hrets.
  assert (Hnot : forall ss tr, ~ In After ss ->
            Forall (fun ev => In (sort_of ev) ss) tr ->
            ~ In (EvAfterSend n r e) tr).
  { intros ss tr Hs Hf Hi. apply Hs. apply (In_sorts ss tr _ Hf Hi). }
  destruct (outcome_of (decode_loop 0 dms [] w)) as [entries|e0|p]; [| |easy].
  - destruct H as [r0 [w2 [E Ho]]]. rewrite E in Hin.
    destruct Hrets as [r1 [w3 [Hr1 _]]].
    assert (Hr0 : backend_rets (trace_of (SendBatch t dms w)) = [r0]).
    { rewrite E. change (?x :: ?l ++ tl) with ([x] ++ l ++ tl).
      rewrite !backend_rets_app.
      rewrite (backend_absent [Before] _
                 ltac:(simpl; intuition discriminate) Hd).
      rewrite (backend_absent [TimingMetric] _
                 ltac:(simpl; intuition discriminate) Htl).
      rewrite (backend_absent [CountMetric; After; Log]
                 (trace_of (respond t dms entries r0 w2)));
        [|simpl; intuition discriminate | apply emits_respond; in_sorts].
      destruct (DryRun (opts t)); reflexivity. }
    apply in_app_or in Hin as [Hin|Hin];
      [exfalso; eapply (Hnot [Before]); [| |exact Hin];
       [simpl; intuition discriminate | exact Hd]|].
    destruct Hin as [Hin|Hin]; [destruct (DryRun (opts t)); discriminate|].
    apply in_app_or in Hin as [Hin|Hin];
      [|exfalso; eapply (Hnot [TimingMetric]); [| |exact Hin];
        [simpl; intuition discriminate | exact Htl]].
    destruct (respond_handed _ _ _ _ _ _ _ _ Hin) as [Hdm [resp [-> Hal]]].
    split; [exact Hdm|]. exists resp. split; [exact Hr0 | exact Hal].
  - exfalso. destruct H as [E _]. rewrite E in Hin.
    apply in_app_or in Hin as [Hin|Hin].
    + eapply (Hnot [Before]); [| |exact Hin];
        [simpl; intuition discriminate | exact Hd].
    + eapply (Hnot [TimingMetric]); [| |exact Hin];
        [simpl; intuition discriminate | exact Htl].
Qed.

(** ** The order of a call and its metrics *)

(** What follows the backend call: at most one failure counter, with a
    positive count, then after-send hooks and logs. *)
Lemma respond_order t dms entries r w :
  exists tc ta,
    trace_of (respond t dms entries r w) = tc ++ ta /\
    (tc = [] \/
     exists resp,
       fst r = Some resp /\ 0 < messaging.FailureCount resp /\
       tc = [EvCount "firebase.message.sendBatch.failure"
               (messaging.FailureCount resp) (Tags (opts t))]) /\
    Forall (fun ev => In (sort_of ev) [After; Log]) ta.
Proof.
  destruct r as [[resp|] [e|]].
  - exists [], (trace_of (respond t dms entries (Some resp, Some e) w)).
    split; [reflexivity|]. split; [now left|].
    rewrite respond_failed.
    destruct (Logger (opts t)); cbn; [|constructor].
    constructor; [in_sorts | constructor].
  - destruct (respond_ok t dms entries resp w) as [-> _].
    unfold reconcile. rewrite bind_trace.
    exists (trace_of (count_failures t resp w)). eexists.
    split; [reflexivity|]. split.
    + unfold count_failures, MetricService_Count.
      destruct (0 <? messaging.FailureCount resp) eqn:Hf; [|now left].
      destruct (MetricService (opts t)); [|now left].
      right. exists resp. apply Z.ltb_lt in Hf. repeat split. exact Hf.
    + destruct (outcome_of (count_failures t resp w)); [|constructor..].
      match goal with |- Forall _ (trace_of (?m ?w')) =>
        assert (Hm : emits [After; Log] m); [|apply Hm]
      end.
      apply emits_bind; [apply emits_reconcile_loop; in_sorts|].
      intros responses. apply emits_bind; [|intros _; apply emits_return].
      apply emits_all_succeeded; in_sorts.
  - exists [], (trace_of (respond t dms entries (None, Some e) w)).
    split; [reflexivity|]. split; [now left|].
    rewrite respond_failed.
    destruct (Logger (opts t)); cbn; [|constructor].
    constructor; [in_sorts | constructor].
  - exists [], []. repeat split; [now left | constructor].
Qed.

(** X11: the events of a call come in phases: the before-send hooks,
    then at most one backend call, then at most one failure counter,
    then the after-send hooks and the logs, and last at most one latency
    timing.  No before-send hook runs once the backend has been called,
    and nothing is counted, logged or handed to an after-send hook before
    it. *)
Theorem phases_in_order t dms w :
  exists tb tk tc ta tt,
    trace_of (SendBatch t dms w) = tb ++ tk ++ tc ++ ta ++ tt /\
    Forall (fun ev => sort_of ev = Before) tb /\
    Forall (fun ev => sort_of ev = Backend) tk /\ (length tk <= 1)%nat /\
    Forall (fun ev => sort_of ev = CountMetric) tc /\ (length tc <= 1)%nat /\
    Forall (fun ev => In (sort_of ev) [After; Log]) ta /\
    Forall (fun ev => sort_of ev = TimingMetric) tt /\ (length tt <= 1)%nat.
Proof.
  destruct (SendBatch_shape t dms w) as [tl [Htl H]].
  pose proof (emits_decode_loop [Before] dms 0 [] (or_introl eq_refl) w) as Hd.
  assert (Hb : Forall (fun ev : event Message => sort_of ev = Before)
                 (trace_of (decode_loop 0 dms [] w))).
  { eapply Forall_impl; [exact Hd|]. simpl. intros ev [E|[]]. now symmetry. }
  assert (Ht : Forall (fun ev : event Message => sort_of ev = TimingMetric) tl /\
               (length tl <= 1)%nat).
  { destruct Htl as [->|[d ->]]; split; repeat constructor. }
  destruct Ht as [Ht1 Ht2].
  destruct (outcome_of (decode_loop 0 dms [] w)) as [entries|e|p]; [| |easy].
  - destruct H as [r [w2 [-> _]]].
    destruct (respond_order t dms entries r w2) as [tc [ta [-> [Hc Ha]]]].
    exists (trace_of (decode_loop 0 dms [] w)),
      [if DryRun (opts t) then EvSendAllDryRun entries r
       else EvSendAll entries r], tc, ta, tl.
    split; [simpl; now rewrite <- !app_assoc|].
    split; [exact Hb|].
    split; [destruct (DryRun (opts t)); repeat constructor|].
    split; [simpl; lia|].
    split; [destruct Hc as [->|[resp [_ [_ ->]]]]; repeat constructor|].
    split; [destruct Hc as [->|[resp [_ [_ ->]]]]; simpl; lia|].
    repeat split; assumption.
  - destruct H as [-> _].
    exists (trace_of (decode_loop 0 dms [] w)), [], [], [], tl.
    repeat split; trivial; try constructor; simpl; lia.
Qed.

(** X14: every metric a call emits is the failure counter with a
    positive count or the latency timing, under their fixed names and
    with the configured tags; the counter is never emitted with a zero or
    negative count. *)
Theorem metrics_as_configured t dms w :
  Forall (metric_ok t) (trace_of (SendBatch t dms w)).
Proof.
  assert (Hsorts : forall ss (tr : trace),
            ~ In CountMetric ss -> ~ In TimingMetric ss ->
            Forall (fun ev => In (sort_of ev) ss) tr ->
            Forall (metric_ok t) tr).
  { intros ss tr H1 H2 H. eapply Forall_impl; [exact H|].
    intros ev Hev. destruct ev; simpl in *; trivial; contradiction. }
  destruct (SendBatch_shape t dms w) as [tl [Htl H]].
  pose proof (emits_decode_loop [Before] dms 0 [] (or_introl eq_refl) w) as Hd.
  apply (Hsorts [Before]) in Hd; try (simpl; intuition discriminate).
  assert (Ht : Forall (metric_ok t) tl).
  { destruct Htl as [->|[d ->]]; repeat constructor. }
  destruct (outcome_of (decode_loop 0 dms [] w)) as [entries|e|p]; [| |easy].
  - destruct H as [r [w2 [-> _]]].
    destruct (respond_order t dms entries r w2) as [tc [ta [-> [Hc Ha]]]].
    apply Forall_app. split; [exact Hd|]. constructor.
    { destruct (DryRun (opts t)); exact I. }
    repeat (apply Forall_app; split); trivial.
    + destruct Hc as [->|[resp [_ [Hpos ->]]]]; repeat constructor.
      exact Hpos.
    + apply (Hsorts [After; Log]); trivial; simpl; intuition discriminate.
  - destruct H as [-> _]. apply Forall_app. split; assumption.
Qed.

(** ** The empty batch *)

Lemma no_after_events (tr : trace) :
  (forall i r e, ~ In (EvAfterSend i r e) tr) -> after_sends tr = [].
Proof.
  induction tr as [|ev tr IH]; intros H; [reflexivity|].
  assert (Hrest : after_sends tr = [])
    by (apply IH; intros i r e Hin; apply (H i r e); now right).
  destruct ev; simpl; trivial. exfalso. eapply H. now left.
Qed.

(** The after-send hooks of a whole call belong to requests of the
    batch. *)
Lemma after_event_in_batch t dms w n r e :
  In (EvAfterSend n r e) (trace_of (SendBatch t dms w)) ->
  exists dm, dms !! n = Some dm /\ has_AfterSend dm = true.
Proof.
  intros Hin.
  destruct (SendBatch_shape t dms w) as [tl [Htl H]].
  apply timing_tail_sorts in Htl.
  pose proof (emits_decode_loop [Before] dms 0 [] (or_introl eq_refl) w) as Hd.
  assert (Hnot : forall ss tr, ~ In After ss ->
            Forall (fun ev => In (sort_of ev) ss) tr ->
            ~ In (EvAfterSend n r e) tr).
  { intros ss tr Hs Hf Hi. apply Hs. apply (In_sorts ss tr _ Hf Hi). }
  destruct (outcome_of (decode_loop 0 dms [] w)) as [entries|e0|p]; [| |easy].
  - destruct H as [r0 [w2 [E _]]]. rewrite E in Hin.
    apply in_app_or in Hin as [Hin|Hin];
      [exfalso; eapply (Hnot [Before]); [| |exact Hin];
       [simpl; intuition discriminate | exact Hd]|].
    destruct Hin as [Hin|Hin]; [destruct (DryRun (opts t)); discriminate|].
    apply in_app_or in Hin as [Hin|Hin];
      [|exfalso; eapply (Hnot [TimingMetric]); [| |exact Hin];
        [simpl; intuition discriminate | exact Htl]].
    apply (respond_handed _ _ _ _ _ _ _ _ Hin).
  - exfalso. destruct H as [E _]. rewrite E in Hin.
    apply in_app_or in Hin as [Hin|Hin].
    + eapply (Hnot [Before]); [| |exact Hin];
        [simpl; intuition discriminate | exact Hd].
    + eapply (Hnot [TimingMetric]); [| |exact Hin];
        [simpl; intuition discriminate | exact Htl].
Qed.

(** X4: an empty batch is still submitted: the backend is called once,
    with no message, and no hook is invoked; with a metrics sink
    configured and an answer without error the call returns nil. *)
Theorem empty_batch_is_submitted t w :
  backend_entries (trace_of (SendBatch t [] w)) = [[]] /\
  before_sends (trace_of (SendBatch t [] w)) = [] /\
  after_sends (trace_of (SendBatch t [] w)) = [] /\
  forall ms resp,
    MetricService (opts t) = Some ms ->
    In (Some resp, None) (backend_rets (trace_of (SendBatch t [] w))) ->
    outcome_of (SendBatch t [] w) = Normal None.
Proof.
  split; [rewrite backend_entries_of_run; reflexivity|].
  split; [now rewrite (proj1 (SendBatch_before t [] w))|].
  assert (Ha : after_sends (trace_of (SendBatch t [] w)) = []).
  { apply no_after_events. intros i r e Hin.
    destruct (after_event_in_batch t [] w i r e Hin) as [dm [Hdm _]].
    discriminate. }
  split; [exact Ha|].
  intros ms resp Hms Hin.
  destruct (backend_answer t [] w _ Hin) as [entries [w2 [tr0 [_ [_ [_ [_ Ho]]]]]]].
  rewrite SendBatch_unfold, Hms. cbn zeta. autorewrite with run.
  rewrite Ho, (proj2 (respond_ok t [] entries resp w2)).
  unfold reconcile. rewrite bind_outcome.
  destruct (count_failures_run t resp w2) as [_ [_ Hc]].
  destruct (Hc ms Hms) as [E _]. rewrite E.
  rewrite !bind_outcome. unfold all_succeeded. simpl.
  destruct (_ =? _); reflexivity.
Qed.

(** ** Entries that carry an error *)

Lemma only_all s (tr : trace) :
  Forall (fun ev => sort_of ev = s) tr -> only s tr = tr.
Proof.
  induction 1 as [|ev tr Hev _ IH]; [reflexivity|].
  unfold only in *. simpl. rewrite Hev.
  replace (sort_eqb s s) with true by (destruct s; reflexivity).
  now rewrite IH.
Qed.

Lemma error_logs_sorts entries dms :
  forall n (responses : list messaging.SendResponse),
  Forall (fun ev : event Message => sort_of ev = Log)
    (error_logs entries n dms responses).
Proof.
  induction dms as [|dm rest IH]; intros n responses; simpl; [constructor|].
  apply Forall_app. split; [|apply IH].
  destruct (responses !! n) as [re|]; [|constructor].
  destruct (entries !! n) as [m|]; [|constructor].
  destruct (messaging.Error re); repeat constructor.
Qed.

(** A turn on a request without an after-send hook logs the entry when
    it carries an error, and changes nothing. *)
Lemma reconcile_entry_no_hook t entries n dm
    (responses : list messaging.SendResponse) w l re m :
  driver.AfterSend dm = None -> Logger (opts t) = Some l ->
  responses !! n = Some re -> entries !! n = Some m ->
  outcome_of (reconcile_entry t entries n dm responses w) = Normal responses /\
  trace_of (reconcile_entry t entries n dm responses w) =
    match messaging.Error re with
    | Some e => [entry_log m re e]
    | None => []
    end.
Proof.
  intros Hh HL Hr Hm. unfold entry_log. run_cases; split; reflexivity.
Qed.

Lemma reconcile_loop_no_hook t entries dms l :
  forall n (responses : list messaging.SendResponse) w,
  Forall (fun dm => has_AfterSend dm = false) dms ->
  Logger (opts t) = Some l ->
  (n + length dms <= length responses)%nat ->
  (n + length dms <= length entries)%nat ->
  outcome_of (reconcile_loop t entries n dms responses w) = Normal responses /\
  trace_of (reconcile_loop t entries n dms responses w) =
    error_logs entries n dms responses.
Proof.
  induction dms as [|dm rest IH]; intros n responses w Hno HL Hr He.
  - split; reflexivity.
  - inversion Hno as [|? ? Hdm Hrest]; subst. simpl length in *.
    assert (Hh : driver.AfterSend dm = None).
    { unfold has_AfterSend in Hdm. destruct (driver.AfterSend dm);
        [discriminate | reflexivity]. }
    destruct (lookup_lt_is_Some_2 responses n ltac:(lia)) as [re Hre].
    destruct (lookup_lt_is_Some_2 entries n ltac:(lia)) as [m Hm].
    destruct (reconcile_entry_no_hook t entries n dm responses w l re m
                Hh HL Hre Hm) as [Ho Ht].
    simpl reconcile_loop. simpl error_logs.
    rewrite bind_outcome, bind_trace, Ho, Ht, Hre, Hm.
    destruct (IH (S n) responses
                (world_of (reconcile_entry t entries n dm responses w))
                Hrest HL ltac:(lia) ltac:(lia)) as [Ho' Ht'].
    rewrite Ho', Ht'. split; reflexivity.
Qed.

Lemma success_loop_no_hook dms :
  forall n (responses : list messaging.SendResponse) w,
  Forall (fun dm => has_AfterSend dm = false) dms ->
  success_loop n dms responses w = (Normal responses, w, []).
Proof.
  induction dms as [|dm rest IH]; intros n responses w Hno; [reflexivity|].
  inversion Hno as [|? ? Hdm Hrest]; subst.
  unfold has_AfterSend in Hdm. simpl. unfold bind.
  destruct (driver.AfterSend dm); [discriminate|].
  unfold ret at 1. now rewrite IH.
Qed.

(** A call whose first loop ran to its end, seen from the backend call
    on. *)
Lemma SendBatch_answered t dms w entries :
  outcome_of (decode_loop 0 dms [] w) = Normal entries ->
  exists r w2,
    backend_rets (trace_of (SendBatch t dms w)) = [r] /\
    only Log (trace_of (SendBatch t dms w)) =
      only Log (trace_of (respond t dms entries r w2)) /\
    outcome_of (SendBatch_body t dms w) =
      outcome_of (respond t dms entries r w2).
Proof.
  intros Hd.
  destruct (SendBatch_shape t dms w) as [tl [Htl H]].
  apply timing_tail_sorts in Htl.
  pose proof (emits_decode_loop [Before] dms 0 [] (or_introl eq_refl) w) as Hb.
  rewrite Hd in H. destruct H as [r [w2 [E Ho]]]. exists r, w2.
  rewrite E. change (?x :: ?l ++ tl) with ([x] ++ l ++ tl).
  rewrite !backend_rets_app, !only_app.
  rewrite (backend_absent [Before] _ ltac:(simpl; intuition discriminate) Hb),
    (backend_absent [TimingMetric] _ ltac:(simpl; intuition discriminate) Htl),
    (only_absent Log [Before] _ ltac:(simpl; intuition discriminate) Hb),
    (only_absent Log [TimingMetric] _ ltac:(simpl; intuition discriminate) Htl).
  rewrite (backend_absent [CountMetric; After; Log]
             (trace_of (respond t dms entries r w2)));
    [|simpl; intuition discriminate | apply emits_respond; in_sorts].
  rewrite !app_nil_r.
  destruct (DryRun (opts t)); repeat split; exact Ho.
Qed.

(** X13: in a batch without after-send hooks, with sink and logger
    configured and one response entry per request, every entry that
    carries an error is logged, in order, with the message submitted at
    its position and the entry itself; nothing else is logged, and the
    call still returns nil. *)
Theorem entry_errors_logged_not_returned t dms w ms l entries resp :
  MetricService (opts t) = Some ms ->
  Logger (opts t) = Some l ->
  Forall (fun dm => has_AfterSend dm = false) dms ->
  In entries (backend_entries (trace_of (SendBatch t dms w))) ->
  In (Some resp, None) (backend_rets (trace_of (SendBatch t dms w))) ->
  (length dms <= length (messaging.Responses resp))%nat ->
  only Log (trace_of (SendBatch t dms w)) =
    error_logs entries 0 dms (messaging.Responses resp) /\
  outcome_of (SendBatch t dms w) = Normal None.
Proof.
  intros Hms HL Hno Hent Hin Hlen.
  rewrite backend_entries_of_run in Hent.
  destruct (outcome_of (decode_loop 0 dms [] w)) as [entries0|e|p] eqn:Hd;
    [|destruct Hent..].
  destruct Hent as [<-|[]].
  destruct (decode_loop_normal _ _ _ _ _ Hd) as [_ [_ [new [E [Hnew _]]]]].
  simpl in E. subst new.
  destruct (SendBatch_answered t dms w entries0 Hd) as [r [w2 [Hr [Hlog Ho]]]].
  rewrite Hr in Hin. destruct Hin as [->|[]].
  destruct (respond_ok t dms entries0 resp w2) as [Et Eo].
  rewrite Hlog, Et. rewrite SendBatch_unfold, Hms. cbn zeta.
  autorewrite with run. rewrite Ho, Eo.
  unfold reconcile. rewrite bind_trace, bind_outcome.
  destruct (count_failures_run t resp w2) as [_ [Hcs Hc]].
  destruct (Hc ms Hms) as [Eco _]. rewrite Eco.
  rewrite only_app,
    (only_absent Log [CountMetric] _ ltac:(simpl; intuition discriminate) Hcs).
  rewrite bind_trace, bind_outcome.
  destruct (reconcile_loop_no_hook t entries0 dms l 0
              (messaging.Responses resp) (world_of (count_failures t resp w2))
              Hno HL ltac:(simpl; lia) ltac:(simpl; lia)) as [Ho1 Ht1].
  rewrite Ho1, Ht1. rewrite bind_trace, bind_outcome.
  assert (Hall : forall w3,
            all_succeeded dms resp (messaging.Responses resp) w3 =
              (Normal (messaging.Responses resp), w3, [])).
  { intros w3. unfold all_succeeded.
    destruct (_ =? _); [now apply success_loop_no_hook | reflexivity]. }
  rewrite Hall. autorewrite with run. simpl.
  rewrite !app_nil_r. split; [|reflexivity].
  apply only_all, error_logs_sorts.
Qed.

(** ** What a before-send hook leaves in its message *)

Lemma decode_loop_hooked dms : forall n entries w entries',
  outcome_of (decode_loop n dms entries w) = Normal entries' ->
  forall k dm hook,
    dms !! k = Some dm -> driver.BeforeSend dm = Some hook ->
    exists w',
      entries' !! (length entries + k)%nat =
        Some (fst (fst (hook (fst (UnmarshalJSON zero_Message (driver.Body dm)))
                          w'))) /\
      snd (fst (hook (fst (UnmarshalJSON zero_Message (driver.Body dm))) w')) =
        None.
Proof.
  induction dms as [|dm rest IH]; intros n entries w entries' Ho k dm0 hook0
    Hk Hh0; [discriminate|].
  rewrite decode_loop_step in Ho.
  destruct (UnmarshalJSON zero_Message (driver.Body dm)) as [m [e|]] eqn:Hu;
    [discriminate|].
  assert (Hstep : forall m1 w1,
            outcome_of (decode_loop (S n) rest (entries ++ [m1]) w1) =
              Normal entries' ->
            entries' !! length entries = Some m1 /\
            forall k', rest !! k' = Some dm0 ->
              exists w',
                entries' !! (length entries + S k')%nat =
                  Some (fst (fst (hook0
                    (fst (UnmarshalJSON zero_Message (driver.Body dm0))) w'))) /\
                snd (fst (hook0
                  (fst (UnmarshalJSON zero_Message (driver.Body dm0))) w')) =
                  None).
  { intros m1 w1 H1. split.
    - destruct (decode_loop_normal _ _ _ _ _ H1) as [_ [_ [new [-> _]]]].
      rewrite <- app_assoc. rewrite lookup_app_r by lia.
      now rewrite Nat.sub_diag.
    - intros k' Hk'.
      destruct (IH _ _ _ _ H1 k' dm0 hook0 Hk' Hh0) as [w' [H2 H3]].
      exists w'. split; [|exact H3]. rewrite <- H2. f_equal.
      rewrite length_app. simpl. lia. }
  destruct (driver.BeforeSend dm) as [hook|] eqn:Hh.
  - destruct (hook m w) as [[m' [e|]] w1] eqn:Hhook; [discriminate|].
    cbn zeta in Ho. autorewrite with run in Ho.
    destruct (Hstep m' w1 Ho) as [H0 Hrest].
    destruct k as [|k]; simpl in Hk; [|apply Hrest, Hk].
    injection Hk as <-. rewrite Hh in Hh0. injection Hh0 as <-.
    exists w. rewrite Hu, Nat.add_0_r. simpl. rewrite Hhook. simpl.
    split; [exact H0 | reflexivity].
  - destruct (Hstep m w Ho) as [_ Hrest].
    destruct k as [|k]; simpl in Hk; [|apply Hrest, Hk].
    injection Hk as <-. congruence.
Qed.

(** X15: what a before-send hook leaves in its message is what is
    submitted: for a request with a hook the backend receives, at the
    position of the request, the message the hook returned when it was
    invoked on the decoded payload, and that invocation returned nil. *)
Theorem submitted_entry_is_hook_result t dms w entries n dm hook :
  In entries (backend_entries (trace_of (SendBatch t dms w))) ->
  dms !! n = Some dm -> driver.BeforeSend dm = Some hook ->
  exists w',
    entries !! n =
      Some (fst (fst (hook (fst (UnmarshalJSON zero_Message (driver.Body dm)))
                        w'))) /\
    snd (fst (hook (fst (UnmarshalJSON zero_Message (driver.Body dm))) w')) =
      None.
Proof.
  rewrite backend_entries_of_run.
  destruct (outcome_of (decode_loop 0 dms [] w)) as [entries'|e|p] eqn:Ho;
    [|intros []..].
  intros [<-|[]] Hn Hh.
  apply (decode_loop_hooked dms 0 [] w entries' Ho n dm hook Hn Hh).
Qed.

End Properties.

(** * The driver on the sample world *)

Section Runs.
Import Sample.

Local Abbreviation decodes := (decodes zero_Message UnmarshalJSON).

(** C1 at a concrete error. *)
Example ErrorCode_of_an_error :
  ErrorCode live_ok_1 (Some "unavailable") = gcerrors.OK /\
  ErrorCode live_ok_1 None = gcerrors.Unknown.
Proof. split; reflexivity. Qed.

Lemma latency_emitted_once_witness :
  MetricService (opts dry_mixed_3) = Some sink /\
  only TimingMetric (trace_of (SendBatch dry_mixed_3 hooked_3 0%nat)) =
    [EvTiming "firebase.messagine.sendBatch.latency" 7000000 ["env:test"]].
Proof.
  split; [reflexivity|].
  exact (proj1 (latency_emitted_once clock zero_Message UnmarshalJSON
                  dry_mixed_3 hooked_3 0%nat sink eq_refl)).
Defined.

Lemma before_send_once_in_order_witness :
  Forall (fun dm => decodes dm = true) hooked_3 /\
  before_errors (trace_of (SendBatch dry_mixed_3 hooked_3 0%nat)) = [] /\
  before_sends (trace_of (SendBatch dry_mixed_3 hooked_3 0%nat)) =
    [0%nat; 2%nat].
Proof.
  assert (Hd : Forall (fun dm => decodes dm = true) hooked_3)
    by (repeat constructor).
  split; [exact Hd|]. split; [reflexivity|].
  exact (proj1 (before_send_once_in_order clock zero_Message UnmarshalJSON
                  dry_mixed_3 hooked_3 0%nat Hd eq_refl)).
Defined.

(** A before-send hook has run in a call whose later payload does not
    decode. *)
Lemma before_send_ran_before_decode_failure :
  Exists (fun dm => decodes dm = false) late_bad /\
  before_sends (trace_of (SendBatch live_ok_1 late_bad 0%nat)) = [0%nat] /\
  outcome_of (SendBatch live_ok_1 late_bad 0%nat) =
    Normal (Some "unexpected end of JSON input").
Proof.
  split; [apply Exists_cons_tl, Exists_cons_hd; reflexivity|].
  split; reflexivity.
Qed.

Lemma decode_failure_aborts_witness :
  Exists (fun dm => decodes dm = false) late_bad /\
  backend_rets (trace_of (SendBatch live_ok_1 late_bad 0%nat)) = [] /\
  after_sends (trace_of (SendBatch live_ok_1 late_bad 0%nat)) = [].
Proof.
  assert (He : Exists (fun dm => decodes dm = false) late_bad)
    by (apply Exists_cons_tl, Exists_cons_hd; reflexivity).
  split; [exact He|].
  pose proof (decode_failure_aborts clock zero_Message UnmarshalJSON
                live_ok_1 late_bad 0%nat He) as H.
  split; [exact (proj1 H) | exact (proj1 (proj2 H))].
Defined.

Lemma failure_count_metric_witness :
  MetricService (opts dry_mixed_3) = Some sink /\
  In (Some mixed_3, None)
     (backend_rets (trace_of (SendBatch dry_mixed_3 hooked_3 0%nat))) /\
  only CountMetric (trace_of (SendBatch dry_mixed_3 hooked_3 0%nat)) =
    [EvCount "firebase.message.sendBatch.failure" 1 ["env:test"]].
Proof.
  assert (Hin : In (Some mixed_3, None)
                  (backend_rets (trace_of (SendBatch dry_mixed_3 hooked_3 0%nat))))
    by (left; reflexivity).
  split; [reflexivity|]. split; [exact Hin|].
  exact (failure_count_metric clock zero_Message UnmarshalJSON
           dry_mixed_3 hooked_3 0%nat sink mixed_3 eq_refl Hin).
Defined.

Lemma transport_error_returned_witness :
  In (None, Some "unavailable")
     (backend_rets (trace_of (SendBatch live_down hooked_3 0%nat))) /\
  after_sends (trace_of (SendBatch live_down hooked_3 0%nat)) = [] /\
  only CountMetric (trace_of (SendBatch live_down hooked_3 0%nat)) = [] /\
  outcome_of (SendBatch live_down hooked_3 0%nat) = Normal (Some "unavailable").
Proof.
  assert (Hin : In (None, Some "unavailable")
                  (backend_rets (trace_of (SendBatch live_down hooked_3 0%nat))))
    by (left; reflexivity).
  pose proof (transport_error_returned clock zero_Message UnmarshalJSON
                live_down hooked_3 0%nat None "unavailable" Hin)
    as [Ha [Hc Hl]].
  split; [exact Hin|]. split; [exact Ha|]. split; [exact Hc|].
  exact (proj2 (Hl logger eq_refl) sink eq_refl).
Defined.

Lemma partial_success_after_send_once_witness :
  In (Some mixed_3, None)
     (backend_rets (trace_of (SendBatch dry_mixed_3 hooked_3 0%nat))) /\
  messaging.SuccessCount mixed_3 <> Z.of_nat (length hooked_3) /\
  after_errors (trace_of (SendBatch dry_mixed_3 hooked_3 0%nat)) = [] /\
  is_panic (outcome_of (SendBatch dry_mixed_3 hooked_3 0%nat)) = false /\
  after_sends (trace_of (SendBatch dry_mixed_3 hooked_3 0%nat)) =
    [0%nat; 2%nat].
Proof.
  assert (Hin : In (Some mixed_3, None)
                  (backend_rets (trace_of (SendBatch dry_mixed_3 hooked_3 0%nat))))
    by (left; reflexivity).
  assert (Hne : messaging.SuccessCount mixed_3 <> Z.of_nat (length hooked_3))
    by discriminate.
  split; [exact Hin|]. split; [exact Hne|]. split; [reflexivity|].
  split; [reflexivity|].
  exact (proj1 (partial_success_after_send_once clock zero_Message
                  UnmarshalJSON dry_mixed_3 hooked_3 0%nat mixed_3
                  Hin Hne eq_refl eq_refl)).
Defined.

Lemma full_success_after_send_twice_witness :
  In (Some all_ok_1, None)
     (backend_rets (trace_of (SendBatch live_ok_1 hooked_1 0%nat))) /\
  messaging.SuccessCount all_ok_1 = Z.of_nat (length hooked_1) /\
  after_errors (trace_of (SendBatch live_ok_1 hooked_1 0%nat)) = [] /\
  is_panic (outcome_of (SendBatch live_ok_1 hooked_1 0%nat)) = false /\
  invocations 0 (after_sends (trace_of (SendBatch live_ok_1 hooked_1 0%nat))) =
    2%nat.
Proof.
  assert (Hin : In (Some all_ok_1, None)
                  (backend_rets (trace_of (SendBatch live_ok_1 hooked_1 0%nat))))
    by (left; reflexivity).
  split; [exact Hin|]. split; [reflexivity|]. split; [reflexivity|].
  split; [reflexivity|].
  exact (full_success_after_send_twice clock zero_Message UnmarshalJSON
           live_ok_1 hooked_1 0%nat all_ok_1 Hin eq_refl eq_refl eq_refl
           0%nat (request body1 None (Some after_ok)) (ok "m0")
           eq_refl eq_refl eq_refl eq_refl).
Defined.

(** The run behind C2: one request, one successful entry, two
    invocations of its after-send hook. *)
Example full_success_run :
  after_sends (trace_of (SendBatch live_ok_1 hooked_1 0%nat)) = [0%nat; 0%nat] /\
  outcome_of (SendBatch live_ok_1 hooked_1 0%nat) = Normal None.
Proof. split; reflexivity. Qed.

(** The scenario of three requests with entries success, error,
    success: nil is returned, hooks 0 and 2 run, one error is logged and
    a failure count of 1 is emitted. *)
Example mixed_run :
  outcome_of (SendBatch dry_mixed_3 hooked_3 0%nat) = Normal None /\
  after_sends (trace_of (SendBatch dry_mixed_3 hooked_3 0%nat)) = [0%nat; 2%nat] /\
  length (only Log (trace_of (SendBatch dry_mixed_3 hooked_3 0%nat))) = 1%nat /\
  only CountMetric (trace_of (SendBatch dry_mixed_3 hooked_3 0%nat)) =
    [EvCount "firebase.message.sendBatch.failure" 1 ["env:test"]].
Proof. repeat split. Qed.


(** The flag decides which entry point answers. *)
Example dry_run_chooses_entry_point :
  (backend_rets (trace_of (SendBatch (over_two_faced true) hooked_3 0%nat)) =
     [(Some mixed_3, None)]) /\
  (outcome_of (SendBatch (over_two_faced true) hooked_3 0%nat) = Normal None) /\
  (backend_rets (trace_of (SendBatch (over_two_faced false) hooked_3 0%nat)) =
     [(None, Some "live is down")]) /\
  (outcome_of (SendBatch (over_two_faced false) hooked_3 0%nat) =
     Normal (Some "live is down")).
Proof. repeat split. Qed.

Lemma nil_collaborators_panic_witness :
  outcome_of (SendBatch bare hooked_3 0%nat) = Panicked NilDereference.
Proof.
  exact (proj1 (nil_collaborators_panic clock zero_Message UnmarshalJSON)
           (backend (Some mixed_3, None)) hooked_3 0%nat).
Defined.

(** Nil options, and a nil logger in front of a failed entry. *)
Example bare_panics :
  outcome_of (SendBatch bare hooked_3 0%nat) = Panicked NilDereference.
Proof. reflexivity. Qed.

Example mute_panics_on_failed_entry :
  SendBatch (mute (Some mixed_3, None)) hooked_3 0%nat =
    (Panicked NilDereference, 6%nat,
     [EvBeforeSend 0 body1 None; EvBeforeSend 2 body1 None;
      EvSendAll [body1; body1; body1] (Some mixed_3, None);
      EvCount "firebase.message.sendBatch.failure" 1 [];
      EvAfterSend 0 (ok "m0") None;
      EvTiming "firebase.messagine.sendBatch.latency" 5000000 []]).
Proof. reflexivity. Qed.

(** *** Further properties on the sample world *)

Lemma submitted_entries_align_witness :
  In [body1 ++ [x21]; body1]
     (backend_entries (trace_of (SendBatch live_ok_1 tagged_2 0%nat))) /\
  length [body1 ++ [x21]; body1] = length tagged_2.
Proof.
  assert (Hin : In [body1 ++ [x21]; body1]
                  (backend_entries (trace_of (SendBatch live_ok_1 tagged_2 0%nat))))
    by (left; reflexivity).
  split; [exact Hin|].
  exact (proj1 (submitted_entries_align clock zero_Message UnmarshalJSON
                  live_ok_1 tagged_2 0%nat _ Hin)).
Defined.

Lemma submitted_entry_is_hook_result_witness :
  In [body1 ++ [x21]; body1]
     (backend_entries (trace_of (SendBatch live_ok_1 tagged_2 0%nat))) /\
  exists w',
    [body1 ++ [x21]; body1] !! 0%nat =
      Some (fst (fst (before_tag (fst (UnmarshalJSON zero_Message body1)) w'))) /\
    snd (fst (before_tag (fst (UnmarshalJSON zero_Message body1)) w')) = None.
Proof.
  assert (Hin : In [body1 ++ [x21]; body1]
                  (backend_entries (trace_of (SendBatch live_ok_1 tagged_2 0%nat))))
    by (left; reflexivity).
  split; [exact Hin|].
  exact (submitted_entry_is_hook_result clock zero_Message UnmarshalJSON
           live_ok_1 tagged_2 0%nat _ 0%nat
           (request body1 (Some before_tag) None) before_tag
           Hin eq_refl eq_refl).
Defined.

Lemma before_send_handed_own_payload_witness :
  In (EvBeforeSend 0 body1 None)
     (trace_of (SendBatch live_ok_1 tagged_2 0%nat)) /\
  exists dm hook,
    tagged_2 !! 0%nat = Some dm /\ driver.BeforeSend dm = Some hook /\
    UnmarshalJSON zero_Message (driver.Body dm) = (body1, None).
Proof.
  assert (Hin : In (EvBeforeSend 0 body1 None)
                  (trace_of (SendBatch live_ok_1 tagged_2 0%nat)))
    by (left; reflexivity).
  split; [exact Hin|].
  exact (before_send_handed_own_payload clock zero_Message UnmarshalJSON
           live_ok_1 tagged_2 0%nat 0%nat body1 None Hin).
Defined.

Lemma before_send_error_aborts_witness :
  In "veto" (before_errors (trace_of (SendBatch live_ok_1 vetoed_2 0%nat))) /\
  before_sends (trace_of (SendBatch live_ok_1 vetoed_2 0%nat)) = [0%nat] /\
  backend_entries (trace_of (SendBatch live_ok_1 vetoed_2 0%nat)) = [] /\
  outcome_of (SendBatch live_ok_1 vetoed_2 0%nat) = Normal (Some "veto").
Proof.
  assert (Hin : In "veto"
                  (before_errors (trace_of (SendBatch live_ok_1 vetoed_2 0%nat))))
    by (left; reflexivity).
  pose proof (before_send_error_aborts clock zero_Message UnmarshalJSON
                live_ok_1 vetoed_2 0%nat "veto" Hin) as [_ [_ [Hb [_ Ho]]]].
  split; [exact Hin|]. split; [reflexivity|]. split; [exact Hb|].
  exact (Ho sink eq_refl).
Defined.

Lemma after_send_error_aborts_witness :
  In "hook" (after_errors (trace_of (SendBatch live_ok_3 after_failing_3 0%nat))) /\
  after_sends (trace_of (SendBatch live_ok_3 after_failing_3 0%nat)) =
    [0%nat; 1%nat] /\
  outcome_of (SendBatch live_ok_3 after_failing_3 0%nat) = Normal (Some "hook").
Proof.
  assert (Hin : In "hook"
                  (after_errors
                     (trace_of (SendBatch live_ok_3 after_failing_3 0%nat))))
    by (left; reflexivity).
  split; [exact Hin|]. split; [reflexivity|].
  exact (proj2 (proj2 (after_send_error_aborts clock zero_Message UnmarshalJSON
                         live_ok_3 after_failing_3 0%nat "hook" Hin))
           sink eq_refl).
Defined.

Lemma after_send_handed_own_entry_witness :
  In (EvAfterSend 2 (ok "m2") None)
     (trace_of (SendBatch dry_mixed_3 hooked_3 0%nat)) /\
  messaging.SuccessCount mixed_3 <> Z.of_nat (length hooked_3) /\
  messaging.Responses mixed_3 !! 2%nat = Some (ok "m2").
Proof.
  assert (Hin : In (EvAfterSend 2 (ok "m2") None)
                  (trace_of (SendBatch dry_mixed_3 hooked_3 0%nat)))
    by (vm_compute; tauto).
  assert (Hne : messaging.SuccessCount mixed_3 <> Z.of_nat (length hooked_3))
    by discriminate.
  split; [exact Hin|]. split; [exact Hne|].
  destruct (after_send_handed_own_entry clock zero_Message UnmarshalJSON
              dry_mixed_3 hooked_3 0%nat 2%nat (ok "m2") None Hin)
    as [_ [resp [Hr Hal]]].
  injection Hr as <-. exact (proj1 (Hal Hne)).
Defined.

Lemma entry_errors_logged_not_returned_witness :
  Forall (fun dm => has_AfterSend dm = false) plain_3 /\
  only Log (trace_of (SendBatch live_mixed_3 plain_3 0%nat)) =
    [entry_log body1 (failed "unregistered") "unregistered"] /\
  outcome_of (SendBatch live_mixed_3 plain_3 0%nat) = Normal None.
Proof.
  assert (Hno : Forall (fun dm => has_AfterSend dm = false) plain_3)
    by (repeat constructor).
  split; [exact Hno|].
  exact (entry_errors_logged_not_returned clock zero_Message UnmarshalJSON
           live_mixed_3 plain_3 0%nat sink logger [body1; body1; body1] mixed_3
           eq_refl eq_refl Hno (or_introl eq_refl) (or_introl eq_refl)
           (le_n 3)).
Defined.

(** As on the sample topic, and a hook accessor asked for the client. *)
Example As_on_sample :
  As live_ok_1 (ClientTarget (Some None)) =
    (inr true, ClientTarget (Some (Some (backend (Some all_ok_1, None))))) /\
  As live_ok_1 (MessageTarget (Some None)) =
    (inr false, MessageTarget (Some None)) /\
  fst (As live_ok_1 (ClientTarget None)) = inl NilDereference /\
  asFunc_BeforeSend body1 (@ClientTarget W Message (Some None)) =
    (inr false, ClientTarget (Some None)) /\
  fst (asFunc_AfterSend [ok "m0"] 3 (@ResponseTarget W Message (Some None))) =
    inl IndexOutOfRange.
Proof. repeat split. Qed.

End Runs.
